(** * personal_assistant_web_v01.py: fields, validators and record sub-aggregates

    A shallow embedding of the contact-book data model of
    [personal_assistant_web_v01.py] and the properties of its validation and
    editing operations.

    Conventions of the embedding.
    - A Python value is a [pyval]: [None], a [str] or an [int].  A [str] is a
      Rocq [string]; every character is read as the code point of the same
      number, so the strings covered are those over U+0000..U+00FF.
    - A method that mutates [self] is a function from the state before the
      call to an [outcome]: the value returned or the exception raised, each
      with the state after the call.
    - [print] is modelled by returning the printed lines.
    - [datetime.today()] is an argument of the function that reads it.
    - The parts of the Python library the program calls ([str.isdigit],
      [re.findall], [datetime.strptime], [datetime] arithmetic) are modelled
      after CPython's implementation.  The messages of the exceptions the
      program raises itself are verbatim; those of exceptions raised inside
      the library are shortened, and no statement depends on them. *)

From Stdlib Require Import ZArith Ascii String List Lia Bool DecimalString.
From stdpp Require Import base list.

Open Scope string_scope.
Open Scope list_scope.

(** ** Python values *)

Inductive pyval : Type :=
| PNone
| PStr (s : string)
| PInt (n : Z).

(** [str(v)] *)
Definition str (v : pyval) : string :=
  match v with
  | PNone => "None"
  | PStr s => s
  | PInt n => NilZero.string_of_int (Z.to_int n)
  end.

(** Truth value of [v] in a condition: [None], [""] and [0] are false. *)
Definition truthy (v : pyval) : bool :=
  match v with
  | PNone => false
  | PStr s => negb (String.eqb s "")
  | PInt n => negb (Z.eqb n 0)
  end.

(** [len(s)] and the characters of [s]. *)
Definition len (s : string) : nat := String.length s.
Definition chars (s : string) : list ascii := list_ascii_of_string s.

(** ** Exceptions and outcomes *)

Inductive exn : Type :=
| ValueError (msg : string)
| TypeError (msg : string)
| AttributeError (msg : string).

(** The result of a call on an object of state [S]: normal return of [a] or
    an exception, together with the state of the object after the call. *)
Inductive outcome (S A : Type) : Type :=
| Return (a : A) (st : S)
| Raise (e : exn) (st : S).
Arguments Return {S A} a st.
Arguments Raise {S A} e st.

Definition state_of {S A} (o : outcome S A) : S :=
  match o with Return _ st => st | Raise _ st => st end.

Definition raised {S A} (o : outcome S A) : option exn :=
  match o with Return _ _ => None | Raise e _ => Some e end.

(** ** Characters *)

Definition code (c : ascii) : nat := nat_of_ascii c.

Definition in_range (lo hi c : ascii) : bool :=
  ((code lo <=? code c) && (code c <=? code hi))%nat.

(** The decimal digits [0-9]; also what [\d] matches below U+0100. *)
Definition isdecimal_char (c : ascii) : bool := in_range "0" "9" c.

(** The characters for which [str.isdigit] holds below U+0100: the decimal
    digits and the superscripts U+00B2, U+00B3 and U+00B9. *)
Definition isdigit_char (c : ascii) : bool :=
  isdecimal_char c
  || (code c =? 178)%nat || (code c =? 179)%nat || (code c =? 185)%nat.

(** [s.isdigit()]: every character is a digit and there is at least one. *)
Definition isdigit (s : string) : bool :=
  match chars s with
  | [] => false
  | cs => forallb isdigit_char cs
  end.

Definition digit_val (c : ascii) : Z := Z.of_nat (code c) - 48.

(** ** Regular expressions: the backtracking matcher of [re] *)

Module Re.

Inductive regex : Type :=
| Cls (p : ascii -> bool)
| Cat (r1 r2 : regex)
| Alt (r1 r2 : regex)
| Star (r : regex).

Definition Chr (c : ascii) : regex := Cls (Ascii.eqb c).
(** [r+] and [r{2,}] *)
Definition Plus (r : regex) : regex := Cat r (Star r).
Definition AtLeast2 (r : regex) : regex := Cat r (Cat r (Star r)).

Section Matcher.
Context {A : Type}.

(** Greedy repetition: try one more iteration of the body, and fall back
    to the continuation when that fails.  An iteration has to consume a
    character; [fuel] is the length of the subject, which bounds the number
    of such iterations. *)
Fixpoint star_loop (body : list ascii -> (list ascii -> option A) -> option A)
    (fuel : nat) (s : list ascii) (k : list ascii -> option A) : option A :=
  match fuel with
  | O => k s
  | S fuel' =>
      match body s (fun s1 => if (length s1 <? length s)%nat
                              then star_loop body fuel' s1 k else None) with
      | Some x => Some x
      | None => k s
      end
  end.

(** [rmatch r s k]: match [r] at the start of [s] and hand the rest to the
    continuation [k]; alternatives are tried in order and the first
    success is returned. *)
Fixpoint rmatch (r : regex) (s : list ascii) (k : list ascii -> option A)
    {struct r} : option A :=
  match r with
  | Cls p =>
      match s with
      | c :: s' => if p c then k s' else None
      | [] => None
      end
  | Cat r1 r2 => rmatch r1 s (fun s1 => rmatch r2 s1 k)
  | Alt r1 r2 =>
      match rmatch r1 s k with
      | Some x => Some x
      | None => rmatch r2 s k
      end
  | Star r1 => star_loop (fun s' k' => rmatch r1 s' k') (length s) s k
  end.
End Matcher.

(** The text consumed between the subject [s] and its suffix [rest]. *)
Definition group (s rest : list ascii) : list ascii :=
  take (length s - length rest) s.

(** Left-to-right scan for non-overlapping matches; [skip] characters belong
    to the match found last. *)
Fixpoint scan (r : regex) (skip : nat) (s : list ascii) : list (list ascii) :=
  match skip with
  | S n =>
      match s with
      | _ :: s' => scan r n s'
      | [] => []
      end
  | O =>
      match rmatch r s Some with
      | Some rest =>
          group s rest ::
            match s with
            | _ :: s' => scan r (length s - length rest - 1) s'
            | [] => []
            end
      | None =>
          match s with
          | _ :: s' => scan r 0 s'
          | [] => []
          end
      end
  end.

(** [re.findall(r, s)]; one entry per match. *)
Definition findall (r : regex) (s : string) : list (list ascii) :=
  scan r 0 (chars s).

End Re.

Import Re.

(** The pattern of [EmailValidator.validate]:
    [([A-Za-z0-9]+[.-_])*[A-Za-z0-9]+@[A-Za-z0-9-]+(\.[A-Z|a-z]{2,})+].
    In [[.-_]] the hyphen stands between two characters and so denotes the
    range from [.] to [_]. *)
Definition alnum (c : ascii) : bool :=
  in_range "A" "Z" c || in_range "a" "z" c || in_range "0" "9" c.
Definition dot_to_underscore (c : ascii) : bool := in_range "." "_" c.
Definition alnum_hyphen (c : ascii) : bool :=
  in_range "A" "Z" c || in_range "a" "z" c || in_range "0" "9" c
  || Ascii.eqb c "-".
Definition alpha_bar (c : ascii) : bool :=
  in_range "A" "Z" c || Ascii.eqb c "|" || in_range "a" "z" c.

Definition email_re : regex :=
  Cat (Star (Cat (Plus (Cls alnum)) (Cls dot_to_underscore)))
 (Cat (Plus (Cls alnum))
 (Cat (Chr "@")
 (Cat (Plus (Cls alnum_hyphen))
      (Plus (Cat (Chr ".") (AtLeast2 (Cls alpha_bar))))))).

(** ** Dates: the part of [datetime] the program uses *)

Module Datetime.
Local Open Scope Z_scope.

Record datetime : Type := mk_datetime {
  year : Z; month : Z; day : Z;
  hour : Z; minute : Z; second : Z; microsecond : Z
}.

Record timedelta : Type := mk_timedelta {
  days : Z; seconds : Z; microseconds : Z
}.

Definition MINYEAR : Z := 1.
Definition MAXYEAR : Z := 9999.

Definition is_leap (y : Z) : bool :=
  (y mod 4 =? 0) && (negb (y mod 100 =? 0) || (y mod 400 =? 0)).

Definition days_in_month (y m : Z) : Z :=
  if (m =? 2) && is_leap y then 29
  else nth (Z.to_nat m) [0; 31; 28; 31; 30; 31; 30; 31; 31; 30; 31; 30; 31] 0.

Definition days_before_year (y : Z) : Z :=
  let y' := y - 1 in y' * 365 + y' / 4 - y' / 100 + y' / 400.

Definition days_before_month (y m : Z) : Z :=
  nth (Z.to_nat m) [0; 0; 31; 59; 90; 120; 151; 181; 212; 243; 273; 304; 334] 0
  + (if (2 <? m) && is_leap y then 1 else 0).

Definition ymd2ord (y m d : Z) : Z :=
  days_before_year y + days_before_month y m + d.

Definition valid_date (y m d : Z) : bool :=
  (MINYEAR <=? y) && (y <=? MAXYEAR) && (1 <=? m) && (m <=? 12)
  && (1 <=? d) && (d <=? days_in_month y m).

(** [datetime(y, m, d)]: midnight of that day, [ValueError] when the fields
    are out of range. *)
Definition new (y m d : Z) : exn + datetime :=
  if negb ((MINYEAR <=? y) && (y <=? MAXYEAR)) then
    inl (ValueError "year is out of range")
  else if negb ((1 <=? m) && (m <=? 12)) then
    inl (ValueError "month must be in 1..12")
  else if negb ((1 <=? d) && (d <=? days_in_month y m)) then
    inl (ValueError "day is out of range for month")
  else inr (mk_datetime y m d 0 0 0 0).

Definition toordinal (t : datetime) : Z := ymd2ord (year t) (month t) (day t).

(** Comparison of two datetimes is the comparison of their field tuples. *)
Fixpoint cmp (a b : list Z) : comparison :=
  match a, b with
  | x :: a', y :: b' =>
      match x ?= y with
      | Eq => cmp a' b'
      | c => c
      end
  | [], [] => Eq
  | [], _ :: _ => Lt
  | _ :: _, [] => Gt
  end.

Definition fields (t : datetime) : list Z :=
  [year t; month t; day t; hour t; minute t; second t; microsecond t].

Definition gt (a b : datetime) : bool :=
  match cmp (fields a) (fields b) with Gt => true | _ => false end.

(** [timedelta(days, seconds, microseconds)] normalises its arguments so
    that [0 <= seconds < 86400] and [0 <= microseconds < 1000000]. *)
Definition new_timedelta (d s us : Z) : timedelta :=
  let s' := s + us / 1000000 in
  mk_timedelta (d + s' / 86400) (s' mod 86400) (us mod 1000000).

(** [a - b] *)
Definition sub (a b : datetime) : timedelta :=
  let secs1 := second a + minute a * 60 + hour a * 3600 in
  let secs2 := second b + minute b * 60 + hour b * 3600 in
  new_timedelta (toordinal a - toordinal b) (secs1 - secs2)
                (microsecond a - microsecond b).

(** [int(text)] for the text of a captured group: blanks around the number
    are ignored and the rest has to be a non-empty run of decimal digits. *)
Fixpoint int_digits (acc : Z) (cs : list ascii) : option Z :=
  match cs with
  | [] => Some acc
  | c :: cs' =>
      if isdecimal_char c then int_digits (acc * 10 + digit_val c) cs'
      else None
  end.

Fixpoint lstrip (cs : list ascii) : list ascii :=
  match cs with
  | c :: cs' => if Ascii.eqb c " " then lstrip cs' else cs
  | [] => []
  end.

Definition int (cs : list ascii) : option Z :=
  match rev (lstrip (rev (lstrip cs))) with
  | [] => None
  | ds => int_digits 0 ds
  end.

(** The pattern [strptime] builds for the format [%d-%m-%Y]:
    [(?P<d>3[0-1]|[1-2]\d|0[1-9]|[1-9]| [1-9])-(?P<m>1[0-2]|0[1-9]|[1-9])-(?P<Y>\d\d\d\d)]. *)
Definition re_d : regex :=
  Alt (Cat (Chr "3") (Cls (in_range "0" "1")))
 (Alt (Cat (Cls (in_range "1" "2")) (Cls isdecimal_char))
 (Alt (Cat (Chr "0") (Cls (in_range "1" "9")))
 (Alt (Cls (in_range "1" "9"))
      (Cat (Chr " ") (Cls (in_range "1" "9")))))).

Definition re_m : regex :=
  Alt (Cat (Chr "1") (Cls (in_range "0" "2")))
 (Alt (Cat (Chr "0") (Cls (in_range "1" "9")))
      (Cls (in_range "1" "9"))).

Definition re_Y : regex :=
  Cat (Cls isdecimal_char) (Cat (Cls isdecimal_char)
 (Cat (Cls isdecimal_char) (Cls isdecimal_char))).

(** [format_regex.match(s)]: the texts of the groups [d], [m] and [Y] and
    what is left of [s] after the match. *)
Definition match_dmY (s : list ascii)
  : option (list ascii * list ascii * list ascii * list ascii) :=
  rmatch re_d s (fun s1 =>
  rmatch (Chr "-") s1 (fun s2 =>
  rmatch re_m s2 (fun s3 =>
  rmatch (Chr "-") s3 (fun s4 =>
  rmatch re_Y s4 (fun s5 =>
    Some (group s s1, group s2 s3, group s4 s5, s5)))))).

(** [datetime.strptime(v, "%d-%m-%Y")] *)
Definition strptime_dmY (v : pyval) : exn + datetime :=
  match v with
  | PStr s =>
      match match_dmY (chars s) with
      | None => inl (ValueError "time data does not match format")
      | Some (d, m, y, rest) =>
          match rest with
          | _ :: _ => inl (ValueError "unconverted data remains")
          | [] =>
              match int y, int m, int d with
              | Some y', Some m', Some d' => new y' m' d'
              | _, _, _ => inl (ValueError "invalid literal for int()")
              end
          end
      end
  | _ => inl (TypeError "strptime() argument 1 must be str")
  end.

End Datetime.

Import Datetime.

(** ** Validators *)

(** The three validator classes.  An [EmailValidator] object has an
    attribute [value] of its own, which [validate] assigns; it is [None]
    here as long as it has not been assigned. *)
Inductive Validator : Type :=
| PhoneValidator
| DateValidator
| EmailValidator (attr_value : option pyval).

(** [PhoneValidator.validate] *)
Definition PhoneValidator_validate (self : Validator) (value : pyval)
  : outcome Validator unit :=
  match value with
  | PStr s =>
      if negb (isdigit s) then
        Raise (ValueError "The phone number must contain only digits.") self
      else if negb (len s =? 9)%nat then
        Raise (ValueError "Phone number must contain exactly 9 digits.") self
      else Return tt self
  | _ => Raise (AttributeError "object has no attribute 'isdigit'") self
  end.

(** [DateValidator.validate]: a [ValueError] of [strptime] is replaced by
    the validator's own; any other exception passes through. *)
Definition DateValidator_validate (self : Validator) (value : pyval)
  : outcome Validator unit :=
  match strptime_dmY value with
  | inr _ => Return tt self
  | inl (ValueError _) =>
      Raise (ValueError "Birthday must be in 'dd-mm-yyyy' format.") self
  | inl e => Raise e self
  end.

(** [EmailValidator.validate] *)
Definition EmailValidator_validate (self : Validator) (value : pyval)
  : outcome Validator unit :=
  match value with
  | PNone => Return tt (EmailValidator (Some PNone))
  | PStr s =>
      if (length (findall email_re s) =? 1)%nat then
        Return tt (EmailValidator (Some value))
      else Raise (ValueError "Incorrect email address") self
  | PInt _ => Raise (TypeError "expected string or bytes-like object") self
  end.

(** Dispatch of [validator.validate(value)] on the class of the object. *)
Definition validate (self : Validator) (value : pyval)
  : outcome Validator unit :=
  match self with
  | PhoneValidator => PhoneValidator_validate self value
  | DateValidator => DateValidator_validate self value
  | EmailValidator _ => EmailValidator_validate self value
  end.

(** ** Field *)

Record Field : Type := mk_Field {
  value : pyval;
  validator : option Validator
}.

(** [Field(value, validator)]: the constructor stores both arguments and
    runs no validation. *)
Definition Field_init (v : pyval) (vd : option Validator) : Field :=
  mk_Field v vd.

Definition set_value (v : pyval) (self : Field) : outcome Field unit :=
  match validator self with
  | Some vd =>
      match validate vd v with
      | Raise e vd' => Raise e (mk_Field (value self) (Some vd'))
      | Return _ vd' => Return tt (mk_Field v (Some vd'))
      end
  | None => Return tt (mk_Field v None)
  end.

Definition get_value (self : Field) : pyval := value self.

(** ** RecordPhone *)

Record RecordPhone : Type := mk_RecordPhone {
  phone : Field;
  phones : list Field
}.

Definition RecordPhone_init : RecordPhone :=
  mk_RecordPhone (Field_init PNone (Some PhoneValidator)) [].

Definition add_phone (p : pyval) (self : RecordPhone)
  : outcome RecordPhone unit :=
  let new_phone := Field_init PNone (Some PhoneValidator) in
  match set_value p new_phone with
  | Raise e _ => Raise e self
  | Return _ new_phone' =>
      Return tt (mk_RecordPhone (phone self) (phones self ++ [new_phone']))
  end.

Definition remove_phone (p : pyval) (self : RecordPhone) : RecordPhone :=
  let phone_to_remove := str p in
  if existsb (String.eqb phone_to_remove)
             (map (fun q => str (get_value q)) (phones self))
  then mk_RecordPhone (phone self)
         (List.filter
            (fun q => negb (String.eqb (str (get_value q)) phone_to_remove))
            (phones self))
  else self.

(** The loop of [edit_phone]: the index of the first entry of [todo], counted
    from [i], whose value stringifies to [old]. *)
Fixpoint edit_phone_loop (old : string) (i : nat) (todo : list Field)
  : option nat :=
  match todo with
  | [] => None
  | q :: todo' =>
      if String.eqb (str (get_value q)) old then Some i
      else edit_phone_loop old (S i) todo'
  end.

(** [edit_phone] returns the lines it prints. *)
Definition edit_phone (old_phone new_phone : pyval) (self : RecordPhone)
  : list string * RecordPhone :=
  let old_phone_obj := Field_init old_phone None in
  match edit_phone_loop (str (get_value old_phone_obj)) 0 (phones self) with
  | Some i =>
      ([], mk_RecordPhone (phone self)
             (<[i := Field_init new_phone (Some PhoneValidator)]> (phones self)))
  | None => (["Old phone number not found."], self)
  end.

(** ** RecordBirthday, RecordAddress, RecordEmail *)

Record RecordBirthday : Type := mk_RecordBirthday { birthday : Field }.

Definition RecordBirthday_init (b : pyval) : RecordBirthday :=
  mk_RecordBirthday (Field_init b (Some DateValidator)).

(** Lifts a call on the single field of a wrapper to the wrapper. *)
Definition on_field {S A} (mk : Field -> S) (o : outcome Field A)
  : outcome S A :=
  match o with
  | Return a f => Return a (mk f)
  | Raise e f => Raise e (mk f)
  end.

Definition add_birthday (b : pyval) (self : RecordBirthday)
  : outcome RecordBirthday unit :=
  on_field mk_RecordBirthday (set_value b (birthday self)).

Definition edit_birthday (new_birthday : pyval) (self : RecordBirthday)
  : outcome RecordBirthday unit :=
  on_field mk_RecordBirthday (set_value new_birthday (birthday self)).

Definition remove_birthday (self : RecordBirthday)
  : outcome RecordBirthday unit :=
  on_field mk_RecordBirthday (set_value PNone (birthday self)).

(** [days_to_birthday], with the reading of the clock as [today]. *)
Definition days_to_birthday (today : datetime) (self : RecordBirthday)
  : outcome RecordBirthday pyval :=
  if truthy (get_value (birthday self)) then
    match strptime_dmY (get_value (birthday self)) with
    | inl e => Raise e self
    | inr birthday_date =>
        match Datetime.new (year today) (month birthday_date)
                           (day birthday_date) with
        | inl e => Raise e self
        | inr next_birthday =>
            if Datetime.gt today next_birthday then
              match Datetime.new (year today + 1) (month birthday_date)
                                 (day birthday_date) with
              | inl e => Raise e self
              | inr next_birthday' =>
                  Return (PInt (days (Datetime.sub next_birthday' today))) self
              end
            else Return (PInt (days (Datetime.sub next_birthday today))) self
        end
    end
  else Return PNone self.

Record RecordAddress : Type := mk_RecordAddress { address : Field }.

Definition RecordAddress_init (a : pyval) : RecordAddress :=
  mk_RecordAddress (Field_init a None).

Definition add_address (a : pyval) (self : RecordAddress)
  : outcome RecordAddress unit :=
  on_field mk_RecordAddress (set_value a (address self)).

Definition remove_address (self : RecordAddress)
  : outcome RecordAddress unit :=
  on_field mk_RecordAddress (set_value PNone (address self)).

Record RecordEmail : Type := mk_RecordEmail { email : Field }.

Definition RecordEmail_init (e : pyval) : RecordEmail :=
  mk_RecordEmail (Field_init e (Some (EmailValidator None))).

Definition add_email (e : pyval) (self : RecordEmail)
  : outcome RecordEmail unit :=
  on_field mk_RecordEmail (set_value e (email self)).

Definition remove_email (self : RecordEmail) : outcome RecordEmail unit :=
  on_field mk_RecordEmail (set_value PNone (email self)).

(** ** RecordInfo: the notes dictionary

    [Field] defines neither [__eq__] nor [__hash__], so a [Field] used as a
    dictionary key is hashed and compared by identity.  The [Field] objects
    of a [RecordInfo] therefore live in a store, addressed by location, and a
    key of the dictionary is either a plain value, compared by value, or the
    location of an object.  A dictionary keeps its entries in insertion
    order. *)

Definition loc : Type := nat.

Inductive key : Type :=
| KVal (v : pyval)
| KObj (l : loc).

Definition pyval_eqb (a b : pyval) : bool :=
  match a, b with
  | PNone, PNone => true
  | PStr s, PStr t => String.eqb s t
  | PInt n, PInt m => Z.eqb n m
  | _, _ => false
  end.

Definition key_eqb (a b : key) : bool :=
  match a, b with
  | KVal v, KVal w => pyval_eqb v w
  | KObj l, KObj m => Nat.eqb l m
  | _, _ => false
  end.

Definition dict : Type := list (key * loc).

(** [k in d] *)
Definition dict_contains (k : key) (d : dict) : bool :=
  existsb (fun e => key_eqb k (fst e)) d.

(** [d[k]] *)
Fixpoint dict_get (k : key) (d : dict) : option loc :=
  match d with
  | [] => None
  | (k', l) :: d' => if key_eqb k k' then Some l else dict_get k d'
  end.

(** [d[k] = l] *)
Fixpoint dict_set (k : key) (l : loc) (d : dict) : dict :=
  match d with
  | [] => [(k, l)]
  | (k', l') :: d' =>
      if key_eqb k k' then (k', l) :: d' else (k', l') :: dict_set k l d'
  end.

(** [del d[k]] *)
Fixpoint dict_del (k : key) (d : dict) : dict :=
  match d with
  | [] => []
  | (k', l') :: d' =>
      if key_eqb k k' then d' else (k', l') :: dict_del k d'
  end.

Record RecordInfo : Type := mk_RecordInfo {
  store : list Field;
  tag : Field;
  note : Field;
  notes : dict
}.

Definition RecordInfo_init : RecordInfo :=
  mk_RecordInfo [] (Field_init PNone None) (Field_init PNone None) [].

(** A new object is placed at the end of the store. *)
Definition alloc (f : Field) (st : list Field) : loc * list Field :=
  (length st, st ++ [f]).

(** [self.notes[Field(tag)] = Field(note)]: the right-hand side is
    evaluated first. *)
Definition add_note (t n : pyval) (self : RecordInfo) : RecordInfo :=
  let '(ln, st1) := alloc (Field_init n None) (store self) in
  let '(lt, st2) := alloc (Field_init t None) st1 in
  mk_RecordInfo st2 (tag self) (note self) (dict_set (KObj lt) ln (notes self)).

(** [edit_note] with the lines it prints. *)
Definition edit_note (t new_note : pyval) (self : RecordInfo)
  : outcome RecordInfo (list string) :=
  if dict_contains (KVal t) (notes self) then
    match dict_get (KVal t) (notes self) with
    | Some l =>
        match store self !! l with
        | Some f =>
            match set_value new_note f with
            | Return _ f' =>
                Return [] (mk_RecordInfo (<[l := f']> (store self)) (tag self)
                                         (note self) (notes self))
            | Raise e f' =>
                Raise e (mk_RecordInfo (<[l := f']> (store self)) (tag self)
                                       (note self) (notes self))
            end
        | None => Return [] self
        end
    | None => Return [] self
    end
  else Return ["Note with this tag does not exist."] self.

Definition newline : string := String (ascii_of_nat 10) "".

(** [remove_note] with the lines it prints. *)
Definition remove_note (t : pyval) (self : RecordInfo)
  : list string * RecordInfo :=
  if dict_contains (KVal t) (notes self) then
    ([("Success:  note with tag " ++ str t
        ++ " has been removed successfully. " ++ newline)%string],
     mk_RecordInfo (store self) (tag self) (note self)
                   (dict_del (KVal t) (notes self)))
  else ([("Note with tag " ++ str t ++ " does not exist.")%string], self).

(** The note stored under the key object [l], read the way the display
    loop reads it. *)
Definition note_value (l : loc) (self : RecordInfo) : option pyval :=
  match store self !! l with
  | Some f => Some (get_value f)
  | None => None
  end.

(** The entries of the dictionary as the console display prints them:
    [key.get_value() -> value.get_value()]. *)
Definition displayed_notes (self : RecordInfo) : list (option pyval * option pyval) :=
  map (fun e =>
         (match fst e with
          | KObj l => note_value l self
          | KVal _ => None
          end,
          note_value (snd e) self))
      (notes self).

(** ** Record, AddressBook and the console display *)

(** [edit_address] and [edit_email], the remaining methods of the
    single-field wrappers. *)
Definition edit_address (new_address : pyval) (self : RecordAddress)
  : outcome RecordAddress unit :=
  on_field mk_RecordAddress (set_value new_address (address self)).

Definition edit_email (new_email : pyval) (self : RecordEmail)
  : outcome RecordEmail unit :=
  on_field mk_RecordEmail (set_value new_email (email self)).

(** The class [Record]; its attributes keep their names inside the module. *)
Module Rec.
Record t : Type := mk {
  name : pyval;
  phone : RecordPhone;
  birthday : RecordBirthday;
  address : RecordAddress;
  email : RecordEmail;
  info : RecordInfo
}.
End Rec.

(** [Record(name)] *)
Definition Record_init (name : pyval) : Rec.t :=
  Rec.mk name RecordPhone_init (RecordBirthday_init PNone)
         (RecordAddress_init PNone) (RecordEmail_init PNone) RecordInfo_init.

(** [sep.join(l)] *)
Fixpoint join (sep : string) (l : list string) : string :=
  match l with
  | [] => ""
  | [x] => x
  | x :: l' => (x ++ sep ++ join sep l')%string
  end.

(** What a display prints, one string per call of [print], and the exception
    that ended it, if any. *)
Definition printed : Type := (list string * option exn)%type.

(** The loop over [record.info.notes.items()].  A key that is a plain value
    has no [get_value]; the loop ends there with [AttributeError].  Every
    location of a dictionary lies in the store, so the last case does not
    occur. *)
Fixpoint display_notes (st : list Field) (d : dict) : printed :=
  match d with
  | [] => ([], None)
  | (KVal _, _) :: _ =>
      ([], Some (AttributeError "object has no attribute 'get_value'"))
  | (KObj lk, lv) :: d' =>
      match st !! lk, st !! lv with
      | Some fk, Some fv =>
          let '(lines, e) := display_notes st d' in
          ((str (get_value fk) ++ " -> " ++ str (get_value fv))%string
             :: lines, e)
      | _, _ => ([], None)
      end
  end.

(** [ConsoleDisplayStrategy.display] *)
Definition ConsoleDisplayStrategy (record : Rec.t) : printed :=
  let head :=
    [("Name: " ++ str (Rec.name record))%string;
     ("Phone: " ++ join ", " (map (fun p => str (get_value p))
                                  (phones (Rec.phone record))))%string;
     ("Birthday: "
        ++ str (get_value (birthday (Rec.birthday record))))%string;
     ("Address: " ++ str (get_value (address (Rec.address record))))%string;
     ("Email: " ++ str (get_value (email (Rec.email record))))%string;
     "Info:"] in
  let '(lines, e) :=
    display_notes (store (Rec.info record)) (notes (Rec.info record)) in
  match e with
  | None => (head ++ lines ++ [newline], None)
  | Some _ => (head ++ lines, e)
  end.

(** A display strategy is an object with a [display] method; here, the
    method. *)
Definition DisplayStrategy : Type := Rec.t -> printed.

(** [Record.display] *)
Definition display (self : Rec.t) (display_strategy : DisplayStrategy)
  : printed :=
  display_strategy self.

Record AddressBook : Type := mk_AddressBook { records : list Rec.t }.

Definition AddressBook_init : AddressBook := mk_AddressBook [].

Definition add_record (record : Rec.t) (self : AddressBook) : AddressBook :=
  mk_AddressBook (records self ++ [record]).

(** The loop of [display_all]: an exception in one display ends it. *)
Fixpoint display_each (display_strategy : DisplayStrategy) (l : list Rec.t)
  : printed :=
  match l with
  | [] => ([], None)
  | record :: l' =>
      match display record display_strategy with
      | (lines, None) =>
          let '(lines', e) := display_each display_strategy l' in
          (lines ++ lines', e)
      | (lines, Some e) => (lines, Some e)
      end
  end.

Definition display_all (display_strategy : DisplayStrategy)
    (self : AddressBook) : printed :=
  display_each display_strategy (records self).

(** ** Notions used in the statements *)

(** The keys of a dictionary are all objects, none a plain value. *)
Definition keys_are_objects (d : dict) : Prop :=
  Forall (fun e => exists l, fst e = KObj l) d.

(** The shape the specification describes: a local part of alphanumerics
    optionally segmented by [.], [-] or [_], then [@], a domain of
    alphanumerics and hyphens, and one or more dot-separated segments of at
    least two letters. *)
Definition dot_hyphen_underscore (c : ascii) : bool :=
  Ascii.eqb c "." || Ascii.eqb c "-" || Ascii.eqb c "_".
Definition alpha (c : ascii) : bool :=
  in_range "A" "Z" c || in_range "a" "z" c.

Definition email_shape_spec : regex :=
  Cat (Star (Cat (Plus (Cls alnum)) (Cls dot_hyphen_underscore)))
 (Cat (Plus (Cls alnum))
 (Cat (Chr "@")
 (Cat (Plus (Cls alnum_hyphen))
      (Plus (Cat (Chr ".") (AtLeast2 (Cls alpha))))))).

Definition accepts_email (s : string) : bool :=
  match validate (EmailValidator None) (PStr s) with
  | Return _ _ => true
  | Raise _ _ => false
  end.

(** The two reasons [PhoneValidator] gives. *)
Definition non_digit_reason : exn :=
  ValueError "The phone number must contain only digits.".
Definition wrong_length_reason : exn :=
  ValueError "Phone number must contain exactly 9 digits.".

(** The superscript two, U+00B2. *)
Definition superscript_two : ascii := ascii_of_nat 178.

(** The language of a regular expression: [matches r t] when the text [t]
    is matched by [r]. *)
Inductive matches : regex -> list ascii -> Prop :=
| M_Cls (p : ascii -> bool) (c : ascii) : p c = true -> matches (Cls p) [c]
| M_Cat (r1 r2 : regex) (p1 p2 : list ascii) :
    matches r1 p1 -> matches r2 p2 -> matches (Cat r1 r2) (p1 ++ p2)
| M_AltL (r1 r2 : regex) (p : list ascii) :
    matches r1 p -> matches (Alt r1 r2) p
| M_AltR (r1 r2 : regex) (p : list ascii) :
    matches r2 p -> matches (Alt r1 r2) p
| M_StarNil (r : regex) : matches (Star r) []
| M_StarCons (r : regex) (p1 p2 : list ascii) :
    matches r p1 -> matches (Star r) p2 -> matches (Star r) (p1 ++ p2).

(** A matcher [f] is sound for the texts [M]: whatever it returns comes from
    the continuation, called on what is left after a text of [M]. *)
Definition sound_on {A} (M : list ascii -> Prop)
    (f : list ascii -> (list ascii -> option A) -> option A) : Prop :=
  forall s k x, f s k = Some x ->
    exists p rest, s = p ++ rest /\ M p /\ k rest = Some x.

(** A matcher [f] is complete for the texts [M]: it fails only if the
    continuation fails after every text of [M] that starts the subject. *)
Definition complete_on {A} (M : list ascii -> Prop)
    (f : list ascii -> (list ascii -> option A) -> option A) : Prop :=
  forall s k, f s k = None ->
    forall p rest, s = p ++ rest -> M p -> k rest = None.

Section DateNotions.
Local Open Scope Z_scope.

(** [c] is a decimal digit. *)
Definition dec (c : ascii) : Prop := isdecimal_char c = true.

(** The ways a day, a month and a year are written in a text that
    [strptime] takes for [%d-%m-%Y], with the number denoted: a day as two
    digits, one digit, or a blank and one digit; a month as two digits or
    one; a year as four digits. *)
Definition day_text (t : list ascii) (n : Z) : Prop :=
  (exists a b, t = [a; b] /\ dec a /\ dec b
               /\ n = 10 * digit_val a + digit_val b)
  \/ (exists a, (t = [a] \/ t = [" "%char; a]) /\ dec a /\ n = digit_val a).

Definition month_text (t : list ascii) (n : Z) : Prop :=
  (exists a b, t = [a; b] /\ dec a /\ dec b
               /\ n = 10 * digit_val a + digit_val b)
  \/ (exists a, t = [a] /\ dec a /\ n = digit_val a).

Definition year_text (t : list ascii) (n : Z) : Prop :=
  exists a b c d, t = [a; b; c; d] /\ dec a /\ dec b /\ dec c /\ dec d
    /\ n = 1000 * digit_val a + 100 * digit_val b + 10 * digit_val c
           + digit_val d.

(** The texts [DateValidator] accepts: day, month and year written as above,
    separated by hyphens, and denoting a date of the calendar. *)
Definition accepted_date_text (cs : list ascii) : Prop :=
  exists d m y nd nm ny,
    cs = d ++ "-"%char :: m ++ "-"%char :: y
    /\ day_text d nd /\ month_text m nm /\ year_text y ny
    /\ valid_date ny nm nd = true.

(** The format the error message names: two digits, two digits and four
    digits, separated by hyphens. *)
Definition dd_mm_yyyy (cs : list ascii) (nd nm ny : Z) : Prop :=
  exists a b c d e f g h,
    cs = [a; b; "-"%char; c; d; "-"%char; e; f; g; h]
    /\ Forall dec [a; b; c; d; e; f; g; h]
    /\ nd = 10 * digit_val a + digit_val b
    /\ nm = 10 * digit_val c + digit_val d
    /\ ny = 1000 * digit_val e + 100 * digit_val f + 10 * digit_val g
            + digit_val h.

Definition bad_format : exn :=
  ValueError "Birthday must be in 'dd-mm-yyyy' format.".

(** A reading of the clock: a date of the calendar and a time of day. *)
Definition well_formed (t : datetime) : Prop :=
  valid_date (year t) (month t) (day t) = true
  /\ 0 <= hour t < 24 /\ 0 <= minute t < 60 /\ 0 <= second t < 60
  /\ 0 <= microsecond t < 1000000.

End DateNotions.

(** Every entry of a phone list carries a [PhoneValidator] and a value that
    validator accepts. *)
Definition phones_valid (l : list Field) : Prop :=
  Forall (fun f => validator f = Some PhoneValidator
                   /\ raised (validate PhoneValidator (value f)) = None) l.

(** Every key of the dictionary is an object of the store, and so is every
    value. *)
Definition wf_info (self : RecordInfo) : Prop :=
  Forall (fun e => (exists lk, fst e = KObj lk /\ lk < length (store self))
                   /\ snd e < length (store self))
         (notes self).

(** A call of one of the three methods of [RecordInfo], and the state after
    a sequence of calls. *)
Inductive note_call : Type :=
| AddNote (t n : pyval)
| EditNote (t new_note : pyval)
| RemoveNote (t : pyval).

Definition call_note (self : RecordInfo) (c : note_call) : RecordInfo :=
  match c with
  | AddNote t n => add_note t n self
  | EditNote t new_note => state_of (edit_note t new_note self)
  | RemoveNote t => snd (remove_note t self)
  end.

Definition call_notes (cs : list note_call) (self : RecordInfo) : RecordInfo :=
  fold_left call_note cs self.

(** The tag and note of every [add_note] among the calls, in order. *)
Definition added (cs : list note_call) : list (option pyval * option pyval) :=
  flat_map (fun c => match c with
                     | AddNote t n => [(Some t, Some n)]
                     | _ => []
                     end) cs.

Section ClockNotions.
Local Open Scope Z_scope.

(** The clock reads midnight. *)
Definition at_midnight (t : datetime) : Prop :=
  hour t = 0 /\ minute t = 0 /\ second t = 0 /\ microsecond t = 0.

End ClockNotions.

(** The line the display prints for a note. *)
Definition note_line (e : option pyval * option pyval) : string :=
  match e with
  | (Some t, Some n) => (str t ++ " -> " ++ str n)%string
  | _ => ""
  end.

(** The six lines the display prints before the notes. *)
Definition display_head (record : Rec.t) : list string :=
  [("Name: " ++ str (Rec.name record))%string;
   ("Phone: " ++ join ", " (map (fun p => str (get_value p))
                                (phones (Rec.phone record))))%string;
   ("Birthday: " ++ str (get_value (birthday (Rec.birthday record))))%string;
   ("Address: " ++ str (get_value (address (Rec.address record))))%string;
   ("Email: " ++ str (get_value (email (Rec.email record))))%string;
   "Info:"].

(** * Properties *)

(** ** The phone list *)

Lemma validate_phone_state (raw : pyval) :
  state_of (validate PhoneValidator raw) = PhoneValidator.
Proof.
  unfold validate, PhoneValidator_validate.
  destruct raw as [|s|n]; try reflexivity.
  destruct (negb (isdigit s)); [reflexivity|].
  destruct (negb (len s =? 9)%nat); reflexivity.
Qed.

(** What [add_phone] does when the validator accepts the number. *)
Lemma add_phone_accepted (self : RecordPhone) (raw : pyval) :
  raised (validate PhoneValidator raw) = None ->
  add_phone raw self
  = Return tt (mk_RecordPhone (phone self)
                 (phones self ++ [Field_init raw (Some PhoneValidator)])).
Proof.
  intros Hok. unfold add_phone, set_value. cbn [validator Field_init].
  pose proof (validate_phone_state raw) as Hst.
  destruct (validate PhoneValidator raw) as [[] vd|e vd]; [|discriminate].
  cbn in Hst. subst vd. reflexivity.
Qed.

Lemma filter_no_match (x : string) (l : list Field) :
  existsb (String.eqb x) (map (fun q => str (get_value q)) l) = false ->
  List.filter (fun q => negb (String.eqb (str (get_value q)) x)) l = l.
Proof.
  induction l as [|q l IH]; cbn; [reflexivity|].
  intros H. apply orb_false_iff in H as [Hq Hl].
  rewrite String.eqb_sym, Hq. cbn. f_equal. exact (IH Hl).
Qed.

Lemma filter_some_match (x : string) (l : list Field) :
  existsb (String.eqb x) (map (fun q => str (get_value q)) l) = false <->
  Forall (fun q => str (get_value q) <> x) l.
Proof.
  induction l as [|q l IH]; cbn.
  - split; [constructor|reflexivity].
  - rewrite orb_false_iff, IH, Forall_cons, String.eqb_neq. split.
    + intros [H1 H2]. split; [congruence|exact H2].
    + intros [H1 H2]. split; [congruence|exact H2].
Qed.

(** C9.  Adding the phone number "123456789" appends one entry whose
    [get_value()] is "123456789".  [remove_phone(raw)] keeps exactly the
    entries whose value does not stringify to [str(raw)], in their order, and
    leaves the record as it is when no entry matches. *)
Theorem phone_roundtrip_and_removal (self : RecordPhone) (raw : pyval) :
  (exists f,
      add_phone (PStr "123456789") self
      = Return tt (mk_RecordPhone (phone self) (phones self ++ [f]))
      /\ get_value f = PStr "123456789")
  /\ phones (remove_phone raw self)
     = List.filter (fun q => negb (String.eqb (str (get_value q)) (str raw)))
                   (phones self)
  /\ phone (remove_phone raw self) = phone self
  /\ (Forall (fun q => str (get_value q) <> str raw) (phones self) ->
      remove_phone raw self = self).
Proof.
  split.
  { eexists. split; [apply add_phone_accepted; reflexivity|reflexivity]. }
  unfold remove_phone.
  destruct (existsb _ _) eqn:Hin.
  - repeat split. intros Hall. apply filter_some_match in Hall. congruence.
  - repeat split. symmetry. apply filter_no_match. exact Hin.
Qed.

(** C10.  When [PhoneValidator] rejects [raw], [add_phone(raw)] raises the
    validator's error and the record, its phone list included, is exactly
    what it was before the call: nothing has been appended. *)
Theorem add_phone_atomic (self : RecordPhone) (raw : pyval) (e : exn) :
  raised (validate PhoneValidator raw) = Some e ->
  add_phone raw self = Raise e self
  /\ phones (state_of (add_phone raw self)) = phones self.
Proof.
  intros Hrej.
  assert (add_phone raw self = Raise e self) as ->; [|split; reflexivity].
  unfold add_phone, set_value. cbn [validator Field_init].
  destruct (validate PhoneValidator raw) as [[] vd|e' vd]; [discriminate|].
  cbn in Hrej. congruence.
Qed.

Lemma add_phone_atomic_witness :
  let self := mk_RecordPhone (Field_init PNone (Some PhoneValidator))
                [Field_init (PStr "555888777") (Some PhoneValidator)] in
  add_phone (PStr "12a") self
  = Raise (ValueError "The phone number must contain only digits.") self
  /\ phones (state_of (add_phone (PStr "12a") self)) = phones self.
Proof.
  exact (add_phone_atomic _ (PStr "12a") _ eq_refl).
Defined.

(** The loop of [edit_phone] returns the first index whose entry matches. *)
Lemma edit_phone_loop_found (old : string) (l : list Field) (i j : nat) :
  edit_phone_loop old i l = Some j ->
  exists n q,
    j = (i + n)%nat /\ l !! n = Some q /\ str (get_value q) = old
    /\ forall m q', (m < n)%nat -> l !! m = Some q' -> str (get_value q') <> old.
Proof.
  revert i. induction l as [|q l IH]; cbn; intros i H; [discriminate|].
  destruct (String.eqb (str (get_value q)) old) eqn:E.
  - injection H as <-. exists 0%nat, q. rewrite Nat.add_0_r.
    apply String.eqb_eq in E. repeat split; auto. intros m q' Hm. lia.
  - apply IH in H as (n & q0 & -> & Hn & Hq0 & Hbefore).
    exists (S n), q0.
    split; [lia|]. split; [exact Hn|]. split; [exact Hq0|].
    intros [|m] q' Hm Hl; cbn in Hl.
    + injection Hl as <-. apply String.eqb_neq. exact E.
    + apply (Hbefore m q'); [lia|exact Hl].
Qed.

Lemma edit_phone_loop_missing (old : string) (l : list Field) (i : nat) :
  edit_phone_loop old i l = None <->
  Forall (fun q => str (get_value q) <> old) l.
Proof.
  revert i. induction l as [|q l IH]; cbn; intros i.
  - split; [constructor|reflexivity].
  - rewrite Forall_cons. destruct (String.eqb (str (get_value q)) old) eqn:E.
    + apply String.eqb_eq in E. split; [discriminate|]. intros [H _]. contradiction.
    + apply String.eqb_neq in E. rewrite IH. tauto.
Qed.

(** X4.  What [edit_phone] does: the first entry whose value stringifies to
    [str(old)] is replaced by [Field(new, PhoneValidator())], whose value is
    [new] whether or not the validator would accept it; every other position
    keeps its entry; without a match one line is printed and the record is
    unchanged.  No path raises. *)
Lemma edit_phone_behaviour (old new : pyval) (self : RecordPhone) :
  (exists n q,
      phones self !! n = Some q /\ str (get_value q) = str old
      /\ (forall m q', (m < n)%nat -> phones self !! m = Some q' ->
                       str (get_value q') <> str old)
      /\ fst (edit_phone old new self) = []
      /\ phones (snd (edit_phone old new self)) !! n
         = Some (Field_init new (Some PhoneValidator))
      /\ (forall m, m <> n ->
            phones (snd (edit_phone old new self)) !! m = phones self !! m)
      /\ length (phones (snd (edit_phone old new self))) = length (phones self))
  \/ (Forall (fun q => str (get_value q) <> str old) (phones self)
      /\ edit_phone old new self = (["Old phone number not found."], self)).
Proof.
  unfold edit_phone. cbn [get_value Field_init value].
  destruct (edit_phone_loop (str old) 0 (phones self)) as [j|] eqn:Hloop.
  - left. apply edit_phone_loop_found in Hloop as (n & q & -> & Hn & Hq & Hb).
    cbn [Nat.add fst snd phones]. exists n, q. repeat split; auto.
    + apply list_lookup_insert_eq. apply lookup_lt_Some in Hn. exact Hn.
    + intros m Hm. apply list_lookup_insert_ne. congruence.
    + apply length_insert.
  - right. split; [|reflexivity]. apply edit_phone_loop_missing in Hloop. exact Hloop.
Qed.

(** C1.  [edit_phone] does not validate the replacement: with the list
    ["123456789"], [edit_phone("123456789", "abc")] stores "abc" in place of
    the entry and prints nothing, although [PhoneValidator] rejects "abc" and
    [add_phone("abc")] raises. *)
Theorem edit_phone_stores_unvalidated :
  let self := mk_RecordPhone (Field_init PNone (Some PhoneValidator))
                [Field_init (PStr "123456789") (Some PhoneValidator)] in
  raised (validate PhoneValidator (PStr "abc"))
  = Some (ValueError "The phone number must contain only digits.")
  /\ add_phone (PStr "abc") self
     = Raise (ValueError "The phone number must contain only digits.") self
  /\ edit_phone (PStr "123456789") (PStr "abc") self
     = ([], mk_RecordPhone (phone self)
              [Field_init (PStr "abc") (Some PhoneValidator)]).
Proof. repeat split. Qed.

(** ** The birthday *)

(** C4.  [remove_birthday] passes [None] to [set_value], whose
    [DateValidator] hands it to [strptime]; that raises [TypeError], which
    the validator does not catch.  So the call raises for every stored value
    and the birthday keeps the value it had. *)
Theorem remove_birthday_raises (b : pyval) :
  (exists msg,
      remove_birthday (RecordBirthday_init b)
      = Raise (TypeError msg) (RecordBirthday_init b))
  /\ get_value (birthday (state_of (remove_birthday (RecordBirthday_init b))))
     = b.
Proof. split; [eexists|]; reflexivity. Qed.

(** The sibling wrappers do reach the absent state. *)
Lemma remove_email_clears (e : pyval) (a : option pyval) :
  get_value (email (state_of
    (remove_email (mk_RecordEmail (mk_Field e (Some (EmailValidator a)))))))
  = PNone.
Proof. reflexivity. Qed.

Lemma remove_address_clears (a : pyval) :
  remove_address (RecordAddress_init a) = Return tt (RecordAddress_init PNone).
Proof. reflexivity. Qed.

(** [days_to_birthday] never changes the record. *)
Lemma days_to_birthday_state (today : datetime) (self : RecordBirthday) :
  state_of (days_to_birthday today self) = self.
Proof.
  unfold days_to_birthday.
  repeat match goal with
         | |- context [if ?c then _ else _] => destruct c
         | |- context [match ?x with inl _ => _ | inr _ => _ end] => destruct x
         end; reflexivity.
Qed.

(** A birthday that is absent, or empty, has no day count. *)
Lemma days_to_birthday_absent (today : datetime) :
  days_to_birthday today (RecordBirthday_init PNone)
  = Return PNone (RecordBirthday_init PNone).
Proof. reflexivity. Qed.

(** C5.  [days_to_birthday] compares the clock reading, time of day
    included, with midnight of this year's birthday.  On the birthday itself,
    at noon, this year's occurrence counts as passed and the result is 364,
    not 0; at noon of the day before, the result is 0, not 1; at midnight
    of the birthday the result is 0.  A birthday on 29 February makes the
    call raise in a year that has no such day. *)
Theorem days_to_birthday_counts_from_the_clock :
  let b := RecordBirthday_init (PStr "15-05-1990") in
  days_to_birthday (mk_datetime 2024 5 15 12 0 0 0) b = Return (PInt 364) b
  /\ days_to_birthday (mk_datetime 2024 5 14 12 0 0 0) b = Return (PInt 0) b
  /\ days_to_birthday (mk_datetime 2024 5 15 0 0 0 0) b = Return (PInt 0) b
  /\ (exists msg,
        raised (days_to_birthday (mk_datetime 2001 3 1 12 0 0 0)
                  (RecordBirthday_init (PStr "29-02-2000")))
        = Some (ValueError msg)).
Proof. repeat split. eexists. reflexivity. Qed.

(** ** The notes *)

Lemma objects_miss_values (t : pyval) (d : dict) :
  keys_are_objects d -> dict_contains (KVal t) d = false.
Proof.
  induction 1 as [|[k l] d [l' Hk] _ IH]; cbn in *; [reflexivity|].
  subst k. exact IH.
Qed.

Lemma dict_set_keys (k : key) (l : loc) (d : dict) :
  (exists l', k = KObj l') -> keys_are_objects d ->
  keys_are_objects (dict_set k l d).
Proof.
  intros Hk. induction 1 as [|[k' l'] d Hk' Hd IH]; cbn.
  - repeat constructor. exact Hk.
  - destruct (key_eqb k k'); constructor; auto.
Qed.

Lemma init_keys : keys_are_objects (notes RecordInfo_init).
Proof. constructor. Qed.

(** Every key that [add_note] creates is a [Field] object. *)
Lemma add_note_keys (t n : pyval) (self : RecordInfo) :
  keys_are_objects (notes self) -> keys_are_objects (notes (add_note t n self)).
Proof.
  intros H. unfold add_note. cbn. apply dict_set_keys; eauto.
Qed.

(** X7.  In a dictionary whose keys are all [Field] objects, which is all
    that [add_note] ever builds, a look-up by the tag itself finds nothing:
    [edit_note] and [remove_note] report the miss and change nothing. *)
Lemma lookup_by_tag_misses (t new_note : pyval) (self : RecordInfo) :
  keys_are_objects (notes self) ->
  edit_note t new_note self = Return ["Note with this tag does not exist."] self
  /\ remove_note t self
     = ([("Note with tag " ++ str t ++ " does not exist.")%string], self).
Proof.
  intros H. unfold edit_note, remove_note.
  rewrite (objects_miss_values t _ H). split; reflexivity.
Qed.

(** C2.  After [add_note("Family", "I have a wife")] the dictionary holds the
    note under a [Field] key.  [edit_note("Family", "Updated")] looks the
    string up, misses, prints that the note does not exist, and the note is
    still "I have a wife"; [remove_note("Family")] misses as well.  None of
    the calls raises. *)
Theorem note_lookup_by_tag_misses :
  let r := add_note (PStr "Family") (PStr "I have a wife") RecordInfo_init in
  displayed_notes r = [(Some (PStr "Family"), Some (PStr "I have a wife"))]
  /\ edit_note (PStr "Family") (PStr "Updated") r
     = Return ["Note with this tag does not exist."] r
  /\ remove_note (PStr "Family") r
     = (["Note with tag Family does not exist."], r).
Proof. repeat split. Qed.

(** The same methods do work on a dictionary keyed by the tags themselves,
    such as one passed to the constructor. *)
Example note_lookup_by_value_hits :
  let r := mk_RecordInfo [Field_init (PStr "I have a wife") None]
             (Field_init PNone None) (Field_init PNone None)
             [(KVal (PStr "Family"), 0%nat)] in
  state_of (edit_note (PStr "Family") (PStr "Updated") r)
  = mk_RecordInfo [Field_init (PStr "Updated") None]
      (Field_init PNone None) (Field_init PNone None)
      [(KVal (PStr "Family"), 0%nat)]
  /\ notes (snd (remove_note (PStr "Family") r)) = [].
Proof. split; reflexivity. Qed.

(** ** The e-mail validator *)

(** The validator accepts a string iff the pattern has exactly one match in
    it, and rejects every other string with its one reason. *)
Lemma email_validator_decides (a : option pyval) (s : string) :
  (raised (validate (EmailValidator a) (PStr s)) = None <->
     length (findall email_re s) = 1%nat)
  /\ (raised (validate (EmailValidator a) (PStr s))
      = Some (ValueError "Incorrect email address") <->
     length (findall email_re s) <> 1%nat).
Proof.
  cbn [validate EmailValidator_validate].
  destruct (Nat.eqb_spec (length (findall email_re s)) 1) as [H|H];
    cbn [raised]; (split; split); intros; congruence.
Qed.

(** The inputs the specification lists behave as it says. *)
Example email_listed_inputs :
  raised (validate (EmailValidator None) PNone) = None
  /\ accepts_email "john.doe@gmail.com" = true
  /\ raised (validate (EmailValidator None) (PStr "not-an-email"))
     = Some (ValueError "Incorrect email address")
  /\ raised (validate (EmailValidator None) (PStr "a@b"))
     = Some (ValueError "Incorrect email address")
  /\ raised (validate (EmailValidator None) (PStr "a@b.co c@d.co"))
     = Some (ValueError "Incorrect email address").
Proof. repeat split. Qed.

(** C8.  The separator class of the pattern is written [[.-_]], the range
    from [.] to [_], which contains [@] and [;] and not the hyphen, and the
    class of the top-level segment is written [[A-Z|a-z]], which contains
    the bar.  So "a@b.co;c@d.co", two addresses by the described shape, is
    one match of the pattern and is accepted, and "a@b.c|", which has no
    segment of two letters, is accepted too. *)
Theorem email_pattern_accepts_more :
  length (findall email_shape_spec "a@b.co;c@d.co") = 2%nat
  /\ map string_of_list_ascii (findall email_re "a@b.co;c@d.co")
     = ["a@b.co;c@d.co"]
  /\ accepts_email "a@b.co;c@d.co" = true
  /\ length (findall email_shape_spec "a@b.c|") = 0%nat
  /\ accepts_email "a@b.c|" = true.
Proof. repeat split. Qed.

(** ** Field.set_value *)

Lemma validate_raise_state (vd vd' : Validator) (raw : pyval) (e : exn) :
  validate vd raw = Raise e vd' -> vd' = vd.
Proof.
  destruct vd; cbn; unfold PhoneValidator_validate, DateValidator_validate,
    EmailValidator_validate.
  - destruct raw; try destruct (negb (isdigit s)); try destruct (negb _);
      congruence.
  - destruct (strptime_dmY raw) as [[]|]; congruence.
  - destruct raw; try destruct (_ =? _)%nat; congruence.
Qed.

Lemma validate_return_state (vd vd' : Validator) (raw : pyval) :
  validate vd raw = Return tt vd' ->
  vd' = vd \/ ((exists a, vd = EmailValidator a) /\ vd' = EmailValidator (Some raw)).
Proof.
  destruct vd; cbn; unfold PhoneValidator_validate, DateValidator_validate,
    EmailValidator_validate.
  - destruct raw; try destruct (negb (isdigit s)); try destruct (negb _);
      try congruence; intros [= <-]; auto.
  - destruct (strptime_dmY raw) as [[]|]; try congruence. intros [= <-]; auto.
  - destruct raw; try destruct (_ =? _)%nat; try congruence;
      intros [= <-]; right; eauto.
Qed.

(** C3, the claim as stated fails: a successful [set_value] on a [Field]
    with an [EmailValidator] also assigns the validator's own [value]
    attribute, so the stored value is not the only state that changes. *)
Lemma set_value_changes_email_validator :
  let f := Field_init PNone (Some (EmailValidator None)) in
  raised (set_value (PStr "john.doe@gmail.com") f) = None
  /\ validator (state_of (set_value (PStr "john.doe@gmail.com") f))
     <> validator f.
Proof. split; [reflexivity|discriminate]. Qed.

(** What a validator is after a [validate] that returned: a
    [PhoneValidator] or a [DateValidator] is as before, an [EmailValidator]
    holds the validated value in its [value] attribute. *)
Lemma validate_return_exact (vd vd' : Validator) (raw : pyval) :
  validate vd raw = Return tt vd' ->
  vd' = match vd with
        | EmailValidator _ => EmailValidator (Some raw)
        | _ => vd
        end.
Proof.
  destruct vd; cbn; unfold PhoneValidator_validate, DateValidator_validate,
    EmailValidator_validate.
  - destruct raw; try destruct (negb (isdigit s)); try destruct (negb _);
      congruence.
  - destruct (strptime_dmY raw) as [[]|]; congruence.
  - destruct raw; try destruct (_ =? _)%nat; congruence.
Qed.

(** C3, amended.  [set_value(raw)] on a [Field] without validator stores
    [raw].  With a validator it runs [validate(raw)]: if that raises, the
    same error reaches the caller and the [Field], value and validator, is
    exactly what it was; if it returns, the stored value becomes [raw], a
    [PhoneValidator] or [DateValidator] is left as it was, and an
    [EmailValidator] has recorded [raw] in its own [value] attribute;
    nothing else changes. *)
Theorem set_value_all_or_nothing (self : Field) (raw : pyval) :
  (validator self = None -> set_value raw self = Return tt (mk_Field raw None))
  /\ (forall vd e,
        validator self = Some vd -> raised (validate vd raw) = Some e ->
        set_value raw self = Raise e self)
  /\ (forall vd,
        validator self = Some vd -> raised (validate vd raw) = None ->
        exists vd',
          set_value raw self = Return tt (mk_Field raw (Some vd'))
          /\ (vd = PhoneValidator \/ vd = DateValidator -> vd' = vd)
          /\ (forall a, vd = EmailValidator a ->
                        vd' = EmailValidator (Some raw))).
Proof.
  destruct self as [v o]. unfold set_value. cbn [validator value].
  split; [intros ->; reflexivity|]. split.
  - intros vd e -> Hr.
    destruct (validate vd raw) as [[] vd'|e' vd'] eqn:Hv; [discriminate|].
    apply validate_raise_state in Hv. cbn in Hr. congruence.
  - intros vd -> Hr.
    destruct (validate vd raw) as [[] vd'|e' vd'] eqn:Hv; [|discriminate].
    exists vd'. split; [reflexivity|].
    apply validate_return_exact in Hv. subst vd'. split.
    + intros [-> | ->]; reflexivity.
    + intros a ->. reflexivity.
Qed.

(** An accepted e-mail address is stored in the field and recorded by the
    validator, whatever the validator held before. *)
Example set_value_email_records :
  set_value (PStr "john.doe@gmail.com")
    (Field_init PNone (Some (EmailValidator (Some (PStr "a@b.co")))))
  = Return tt
      (Field_init (PStr "john.doe@gmail.com")
         (Some (EmailValidator (Some (PStr "john.doe@gmail.com"))))).
Proof. reflexivity. Qed.

(** The three cases at concrete fields: no validator, a rejected value, an
    accepted value. *)
Example set_value_cases :
  set_value (PStr "x") (Field_init PNone None)
  = Return tt (Field_init (PStr "x") None)
  /\ set_value (PStr "12") (Field_init (PStr "555888777") (Some PhoneValidator))
     = Raise wrong_length_reason
         (Field_init (PStr "555888777") (Some PhoneValidator))
  /\ set_value (PStr "123456789")
       (Field_init (PStr "555888777") (Some PhoneValidator))
     = Return tt (Field_init (PStr "123456789") (Some PhoneValidator)).
Proof. repeat split. Qed.

(** ** PhoneValidator *)

Lemma forallb_Forall_true {A} (f : A -> bool) (l : list A) :
  forallb f l = true <-> Forall (fun x => f x = true) l.
Proof.
  induction l as [|x l IH]; cbn.
  - split; [constructor|reflexivity].
  - rewrite andb_true_iff, Forall_cons, IH. reflexivity.
Qed.

Lemma forallb_Exists_false {A} (f : A -> bool) (l : list A) :
  forallb f l = false <-> Exists (fun x => f x = false) l.
Proof.
  induction l as [|x l IH]; cbn.
  - split; [discriminate|]. intros H. inversion H.
  - rewrite andb_false_iff, Exists_cons, IH. reflexivity.
Qed.

Lemma len_chars (s : string) : len s = length (chars s).
Proof. induction s as [|c s IH]; cbn; [reflexivity|]. f_equal. exact IH. Qed.

Lemma chars_nil (s : string) : chars s = [] <-> s = "".
Proof. destruct s; cbn; split; congruence. Qed.

(** [s.isdigit()] holds exactly of the non-empty strings of digits. *)
Lemma isdigit_spec (s : string) :
  isdigit s = true <->
  s <> "" /\ Forall (fun c => isdigit_char c = true) (chars s).
Proof.
  unfold isdigit. destruct s as [|c s].
  - cbn. split; [discriminate|]. intros [H _]. contradiction.
  - change (chars (String c s)) with (c :: chars s).
    rewrite forallb_Forall_true. split; [intros H; split; [discriminate|exact H]|tauto].
Qed.

Lemma isdigit_false (s : string) :
  isdigit s = false <->
  s = "" \/ Exists (fun c => isdigit_char c = false) (chars s).
Proof.
  unfold isdigit. destruct s as [|c s].
  - cbn. split; auto.
  - change (chars (String c s)) with (c :: chars s).
    rewrite forallb_Exists_false. split; [auto|]. intros [H|H]; [discriminate|exact H].
Qed.

(** The digits of [str.isdigit]: the decimal digits and three superscripts. *)
Lemma isdigit_char_spec (c : ascii) :
  isdigit_char c = true <->
  isdecimal_char c = true \/ code c = 178%nat \/ code c = 179%nat
  \/ code c = 185%nat.
Proof.
  unfold isdigit_char. rewrite !orb_true_iff, !Nat.eqb_eq. tauto.
Qed.

(** C7, the claim as stated fails.  The empty string holds no non-digit and
    its length is not 9, yet the reason reported is the non-digit one; and a
    string of eight decimal digits and a superscript two is accepted
    although the superscript is not a decimal digit. *)
Lemma phone_validator_empty_and_superscript :
  (Forall (fun c => isdecimal_char c = true) (chars "") /\ len "" <> 9%nat
   /\ raised (validate PhoneValidator (PStr "")) = Some non_digit_reason)
  /\ (let s := ("12345678" ++ String superscript_two "")%string in
      raised (validate PhoneValidator (PStr s)) = None
      /\ ~ Forall (fun c => isdecimal_char c = true) (chars s)).
Proof.
  split; [split; [constructor|split; [discriminate|reflexivity]]|].
  split; [reflexivity|].
  intros H. apply forallb_Forall_true in H. discriminate H.
Qed.

(** C7, amended.  For every string [raw], [PhoneValidator.validate(raw)]
    accepts iff [raw] consists of exactly 9 characters that are digits in
    the sense of [str.isdigit] (the decimal digits and, besides, characters
    such as the superscript digits); it rejects with the non-digit reason
    iff [raw] is empty or holds a character that is not such a digit, which
    is also the reason when the length is wrong as well; and it rejects
    with the wrong-length reason iff [raw] is a non-empty string of digits
    whose length is not 9. *)
Theorem phone_validator_decides (raw : string) :
  (raised (validate PhoneValidator (PStr raw)) = None <->
     Forall (fun c => isdigit_char c = true) (chars raw) /\ len raw = 9%nat)
  /\ (raised (validate PhoneValidator (PStr raw)) = Some non_digit_reason <->
     raw = "" \/ Exists (fun c => isdigit_char c = false) (chars raw))
  /\ (raised (validate PhoneValidator (PStr raw)) = Some wrong_length_reason <->
     raw <> "" /\ Forall (fun c => isdigit_char c = true) (chars raw)
     /\ len raw <> 9%nat).
Proof.
  cbn [validate PhoneValidator_validate].
  pose proof (isdigit_spec raw) as Hspec.
  pose proof (isdigit_false raw) as Hfalse.
  assert (raw = "" -> len raw <> 9%nat) as Hempty by (intros ->; discriminate).
  unfold non_digit_reason, wrong_length_reason.
  destruct (isdigit raw); cbn [negb].
  - assert (raw <> "" /\ Forall (fun c => isdigit_char c = true) (chars raw))
      as Hyes by (apply Hspec; reflexivity).
    assert (~ (raw = "" \/ Exists (fun c => isdigit_char c = false) (chars raw)))
      as Hno by (intros H; apply Hfalse in H; discriminate).
    clear Hspec Hfalse.
    destruct (Nat.eqb_spec (len raw) 9) as [Hl|Hl]; cbn [negb raised];
      (split; [|split]); split; intros H;
      first [reflexivity | discriminate | tauto].
  - assert (raw = "" \/ Exists (fun c => isdigit_char c = false) (chars raw))
      as Hyes by (apply Hfalse; reflexivity).
    assert (~ (raw <> "" /\ Forall (fun c => isdigit_char c = true) (chars raw)))
      as Hno by (intros H; apply Hspec in H; discriminate).
    clear Hspec Hfalse. cbn [raised].
    (split; [|split]); split; intros H;
      first [reflexivity | discriminate | tauto].
Qed.

(** ** The matcher *)

Lemma star_loop_sound {A} (r : regex)
    (body : list ascii -> (list ascii -> option A) -> option A) (fuel : nat) :
  sound_on (matches r) body ->
  sound_on (matches (Star r)) (star_loop body fuel).
Proof.
  intros Hbody. induction fuel as [|fuel IH]; intros s k x; cbn [star_loop].
  - intros Hk. exists [], s. repeat split; [constructor|exact Hk].
  - destruct (body s _) as [y|] eqn:Hb.
    + intros [= ->]. apply Hbody in Hb as (p1 & s1 & -> & Hp1 & Hrest).
      destruct (length s1 <? length (p1 ++ s1))%nat; [|discriminate].
      apply IH in Hrest as (p2 & rest & -> & Hp2 & Hk).
      exists (p1 ++ p2), rest. rewrite <- app_assoc.
      repeat split; [constructor; assumption|exact Hk].
    + intros Hk. exists [], s. repeat split; [constructor|exact Hk].
Qed.

Lemma rmatch_sound {A} (r : regex) : sound_on (A:=A) (matches r) (rmatch r).
Proof.
  induction r as [p|r1 IH1 r2 IH2|r1 IH1 r2 IH2|r IH]; intros s k x; cbn [rmatch].
  - destruct s as [|c s]; [discriminate|]. destruct (p c) eqn:Hp; [|discriminate].
    intros Hk. exists [c], s. repeat split; [constructor; exact Hp|exact Hk].
  - intros H. apply IH1 in H as (p1 & s1 & -> & Hp1 & H).
    apply IH2 in H as (p2 & rest & -> & Hp2 & Hk).
    exists (p1 ++ p2), rest. rewrite <- app_assoc.
    repeat split; [constructor; assumption|exact Hk].
  - destruct (rmatch r1 s k) as [y|] eqn:H1.
    + intros [= ->]. apply IH1 in H1 as (p & rest & -> & Hp & Hk).
      exists p, rest. repeat split; [apply M_AltL; exact Hp|exact Hk].
    + intros H2. apply IH2 in H2 as (p & rest & -> & Hp & Hk).
      exists p, rest. repeat split; [apply M_AltR; exact Hp|exact Hk].
  - apply (star_loop_sound r). exact IH.
Qed.


Lemma matches_Cls (p : ascii -> bool) (t : list ascii) :
  matches (Cls p) t -> exists c, t = [c] /\ p c = true.
Proof. inversion 1; subst. eauto. Qed.

Lemma matches_Cat (r1 r2 : regex) (t : list ascii) :
  matches (Cat r1 r2) t ->
  exists t1 t2, t = t1 ++ t2 /\ matches r1 t1 /\ matches r2 t2.
Proof. inversion 1; subst. eauto. Qed.

Lemma matches_Alt (r1 r2 : regex) (t : list ascii) :
  matches (Alt r1 r2) t -> matches r1 t \/ matches r2 t.
Proof. inversion 1; subst; auto. Qed.

(** Empty iterations can be left out of a repetition. *)
Lemma matches_Star (r : regex) (t : list ascii) :
  matches (Star r) t ->
  t = [] \/ exists t1 t2,
    t1 <> [] /\ t = t1 ++ t2 /\ matches r t1 /\ matches (Star r) t2.
Proof.
  remember (Star r) as r' eqn:E. intros H. revert E.
  induction H as [| | | | |r0 t1 t2 H1 _ H2 IH2]; intros E; try discriminate.
  - left. reflexivity.
  - injection E as ->. destruct t1 as [|c t1].
    + apply IH2. reflexivity.
    + right. exists (c :: t1), t2. repeat split; [discriminate|assumption..].
Qed.

Lemma star_loop_complete {A} (r : regex)
    (body : list ascii -> (list ascii -> option A) -> option A) (fuel : nat) :
  complete_on (matches r) body ->
  forall s k, (length s <= fuel)%nat -> star_loop body fuel s k = None ->
    forall p rest, s = p ++ rest -> matches (Star r) p -> k rest = None.
Proof.
  intros Hbody. induction fuel as [|fuel IH]; intros s k Hlen; cbn [star_loop].
  - intros Hk p rest -> Hp. destruct p; [exact Hk|cbn in Hlen; lia].
  - destruct (body s _) as [y|] eqn:Hb; [discriminate|].
    intros Hk p rest -> Hp.
    apply matches_Star in Hp as [->|(p1 & p2 & Hne & -> & Hp1 & Hp2)];
      [exact Hk|].
    pose proof (Hbody _ _ Hb p1 (p2 ++ rest)
                  (eq_sym (app_assoc p1 p2 rest)) Hp1) as Hrest.
    cbn beta in Hrest.
    assert (length (p2 ++ rest) < length ((p1 ++ p2) ++ rest))%nat as Hlt.
    { rewrite <- app_assoc, (length_app p1).
      destruct p1; [contradiction|cbn; lia]. }
    rewrite (proj2 (Nat.ltb_lt _ _) Hlt) in Hrest.
    assert (length (p2 ++ rest) <= fuel)%nat as Hle by lia.
    exact (IH (p2 ++ rest) k Hle Hrest p2 rest eq_refl Hp2).
Qed.

Lemma rmatch_complete {A} (r : regex) :
  complete_on (A:=A) (matches r) (rmatch r).
Proof.
  induction r as [f|r1 IH1 r2 IH2|r1 IH1 r2 IH2|r IH]; intros s k; cbn [rmatch].
  - intros H p rest -> Hp. apply matches_Cls in Hp as (c & -> & Hc).
    cbn in H. rewrite Hc in H. exact H.
  - intros H p rest -> Hp. apply matches_Cat in Hp as (p1 & p2 & -> & Hp1 & Hp2).
    rewrite <- app_assoc in H.
    pose proof (IH1 _ _ H p1 (p2 ++ rest) eq_refl Hp1) as H'.
    exact (IH2 _ _ H' p2 rest eq_refl Hp2).
  - destruct (rmatch r1 s k) eqn:H1; [discriminate|].
    intros H2 p rest -> Hp. apply matches_Alt in Hp as [Hp|Hp].
    + exact (IH1 _ _ H1 p rest eq_refl Hp).
    + exact (IH2 _ _ H2 p rest eq_refl Hp).
  - intros H p rest Hs Hp.
    exact (star_loop_complete r _ (length s) IH s k (Nat.le_refl _) H p rest Hs Hp).
Qed.

(** The matcher fails exactly when no text of the language, followed by a
    rest the continuation takes, starts the subject. *)
Lemma rmatch_None_iff {A} (r : regex) (s : list ascii)
    (k : list ascii -> option A) :
  rmatch r s k = None <->
  forall p rest, s = p ++ rest -> matches r p -> k rest = None.
Proof.
  split; [apply rmatch_complete|].
  intros H. destruct (rmatch r s k) as [x|] eqn:E; [|reflexivity].
  apply rmatch_sound in E as (p & rest & Hs & Hp & Hk).
  rewrite (H p rest Hs Hp) in Hk. discriminate.
Qed.

(** ** Dates *)

Section DateProperties.
Local Open Scope Z_scope.

Lemma decimal_cases (c : ascii) :
  dec c ->
  In c ["0"; "1"; "2"; "3"; "4"; "5"; "6"; "7"; "8"; "9"]%char.
Proof.
  unfold dec.
  destruct c as [[] [] [] [] [] [] [] []]; intros H;
    first [discriminate H | cbn; tauto].
Qed.

Lemma decimal_val (c : ascii) : dec c -> 0 <= digit_val c <= 9.
Proof.
  intros H. apply decimal_cases in H. cbn in H.
  repeat destruct H as [<-|H]; try (cbv; split; discriminate). contradiction.
Qed.

Lemma decimal_not_blank (c : ascii) : dec c -> Ascii.eqb c " " = false.
Proof.
  intros H. apply decimal_cases in H. cbn in H.
  repeat destruct H as [<-|H]; try reflexivity. contradiction.
Qed.

Lemma subrange_decimal (lo hi c : ascii) :
  in_range lo hi c = true ->
  (48 <= code lo)%nat -> (code hi <= 57)%nat -> dec c.
Proof.
  unfold dec, isdecimal_char, in_range. intros H Hlo Hhi.
  apply andb_true_iff in H as [H1 H2].
  apply Nat.leb_le in H1, H2. apply andb_true_iff.
  split; apply Nat.leb_le; change (code "0") with 48%nat;
    change (code "9") with 57%nat; lia.
Qed.

Lemma int_digits_snoc (acc : Z) (cs : list ascii) :
  Forall dec cs ->
  int_digits acc cs
  = Some (fold_left (fun a c => a * 10 + digit_val c) cs acc).
Proof.
  intros H. revert acc. induction H as [|c cs Hc _ IH]; intros acc; cbn.
  - reflexivity.
  - unfold dec in Hc. rewrite Hc. apply IH.
Qed.

Lemma day_text_int (t : list ascii) (n : Z) : day_text t n -> int t = Some n.
Proof.
  intros [(a & b & -> & Ha & Hb & ->)|(a & [->| ->] & Ha & ->)];
    unfold int; cbn [lstrip rev app];
    rewrite ?(decimal_not_blank _ Ha), ?(decimal_not_blank _ Hb);
    cbn [lstrip rev app Ascii.eqb Bool.eqb];
    rewrite ?(decimal_not_blank _ Ha), ?(decimal_not_blank _ Hb);
    cbn [rev app]; rewrite int_digits_snoc by (repeat constructor; assumption);
    cbn [fold_left]; f_equal; lia.
Qed.

Lemma month_text_int (t : list ascii) (n : Z) : month_text t n -> int t = Some n.
Proof.
  intros [H|(a & -> & Ha & ->)]; apply day_text_int; [left; exact H|].
  right. exists a. auto.
Qed.

Lemma year_text_int (t : list ascii) (n : Z) : year_text t n -> int t = Some n.
Proof.
  intros (a & b & c & d & -> & Ha & Hb & Hc & Hd & ->).
  unfold int; cbn [lstrip rev app].
  rewrite (decimal_not_blank _ Ha). cbn [lstrip rev app].
  rewrite (decimal_not_blank _ Hd). cbn [rev app].
  rewrite int_digits_snoc by (repeat constructor; assumption).
  cbn [fold_left]; f_equal; lia.
Qed.

Ltac invert_matches :=
  repeat match goal with
         | H : matches (Chr _) _ |- _ => unfold Chr in H
         | H : matches (Cls _) _ |- _ =>
             apply matches_Cls in H; destruct H as (? & -> & H)
         | H : matches (Cat _ _) _ |- _ =>
             apply matches_Cat in H; destruct H as (? & ? & -> & ? & ?)
         | H : matches (Alt _ _) _ |- _ =>
             apply matches_Alt in H; destruct H as [H|H]
         | H : Ascii.eqb _ _ = true |- _ => apply Ascii.eqb_eq in H; subst
         end.

Ltac decimal_by_range :=
  match goal with
  | H : in_range _ _ ?c = true |- dec ?c =>
      apply (subrange_decimal _ _ _ H); vm_compute; lia
  | |- dec _ => reflexivity
  end.

Lemma re_d_shape (t : list ascii) : matches re_d t -> exists n, day_text t n.
Proof.
  unfold re_d. intros H. invert_matches; cbn [app]; eexists.
  - left. do 2 eexists. split; [reflexivity|]. repeat split; decimal_by_range.
  - left. do 2 eexists. split; [reflexivity|]. repeat split; first [assumption|decimal_by_range].
  - left. do 2 eexists. split; [reflexivity|]. repeat split; decimal_by_range.
  - right. eexists. split; [left; reflexivity|]. split; [decimal_by_range|reflexivity].
  - right. eexists. split; [right; reflexivity|]. split; [decimal_by_range|reflexivity].
Qed.

Lemma re_m_shape (t : list ascii) : matches re_m t -> exists n, month_text t n.
Proof.
  unfold re_m. intros H. invert_matches; cbn [app]; eexists.
  - left. do 2 eexists. split; [reflexivity|]. repeat split; decimal_by_range.
  - left. do 2 eexists. split; [reflexivity|]. repeat split; decimal_by_range.
  - right. eexists. split; [reflexivity|]. split; [decimal_by_range|reflexivity].
Qed.

Lemma re_Y_shape (t : list ascii) : matches re_Y t -> exists n, year_text t n.
Proof.
  unfold re_Y. intros H. invert_matches; cbn [app].
  eexists. do 4 eexists. split; [reflexivity|]. repeat split; assumption.
Qed.

Ltac each_decimal H :=
  apply decimal_cases in H; cbn [In] in H;
  repeat (destruct H as [<-|H]); [..|contradiction].

Ltac first_match Hn :=
  first [ discriminate Hn
        | vm_compute;
          repeat match goal with
                 | |- context [match ?x with Some _ => _ | None => _ end] =>
                     destruct x
                 end; reflexivity ].

Lemma re_d_first {A} (t : list ascii) (n : Z)
    (k : list ascii -> list ascii -> option A) (rest : list ascii) :
  day_text t n -> (1 <=? n) && (n <=? 31) = true ->
  rmatch re_d (t ++ "-"%char :: rest) (fun s1 => rmatch (Chr "-") s1 (k s1))
  = k ("-"%char :: rest) rest.
Proof.
  intros [(a & b & -> & Ha & Hb & ->)|(a & [->| ->] & Ha & ->)] Hn.
  - each_decimal Ha; each_decimal Hb; first_match Hn.
  - each_decimal Ha; first_match Hn.
  - each_decimal Ha; first_match Hn.
Qed.

Lemma re_m_first {A} (t : list ascii) (n : Z)
    (k : list ascii -> list ascii -> option A) (rest : list ascii) :
  month_text t n -> (1 <=? n) && (n <=? 12) = true ->
  rmatch re_m (t ++ "-"%char :: rest) (fun s1 => rmatch (Chr "-") s1 (k s1))
  = k ("-"%char :: rest) rest.
Proof.
  intros [(a & b & -> & Ha & Hb & ->)|(a & -> & Ha & ->)] Hn.
  - each_decimal Ha; each_decimal Hb; first_match Hn.
  - each_decimal Ha; first_match Hn.
Qed.

Lemma re_Y_first {A} (t : list ascii) (n : Z)
    (k : list ascii -> option A) (rest : list ascii) :
  year_text t n -> rmatch re_Y (t ++ rest) k = k rest.
Proof.
  intros (a & b & c & d & -> & Ha & Hb & Hc & Hd & _).
  unfold dec in *. cbn. rewrite Ha, Hb, Hc, Hd. reflexivity.
Qed.

Lemma group_app (p rest : list ascii) : group (p ++ rest) rest = p.
Proof.
  unfold group. rewrite length_app.
  replace (length p + length rest - length rest)%nat with (length p) by lia.
  apply take_app_length.
Qed.

Lemma days_in_month_le (y m : Z) : days_in_month y m <= 31.
Proof.
  unfold days_in_month. destruct (_ && _); [lia|].
  destruct (Z.to_nat m) as [|[|[|[|[|[|[|[|[|[|[|[|[|k]]]]]]]]]]]]];
    cbn; try lia. destruct k; cbn; lia.
Qed.

Lemma new_valid (y m d : Z) :
  valid_date y m d = true <-> exists t, Datetime.new y m d = inr t.
Proof.
  unfold valid_date, Datetime.new.
  destruct (MINYEAR <=? y), (y <=? MAXYEAR), (1 <=? m), (m <=? 12),
    (1 <=? d), (d <=? days_in_month y m); cbn;
    (split; [first [discriminate|eauto]|]); intros [t H];
    first [reflexivity|discriminate H].
Qed.

Lemma match_dmY_sound (s d m y rest : list ascii) :
  match_dmY s = Some (d, m, y, rest) ->
  s = d ++ "-"%char :: m ++ "-"%char :: y ++ rest
  /\ matches re_d d /\ matches re_m m /\ matches re_Y y.
Proof.
  unfold match_dmY. intros H.
  apply rmatch_sound in H as (p1 & r1 & -> & Hd & H).
  apply rmatch_sound in H as (q1 & r2 & -> & Hq1 & H).
  apply rmatch_sound in H as (p2 & r3 & -> & Hm & H).
  apply rmatch_sound in H as (q2 & r4 & -> & Hq2 & H).
  apply rmatch_sound in H as (p3 & r5 & -> & Hy & H).
  invert_matches. cbn [app] in H.
  change ("-"%char :: p2 ++ "-"%char :: p3 ++ r5)
    with (["-"%char] ++ p2 ++ ["-"%char] ++ p3 ++ r5) in H at 1.
  rewrite !group_app in H. injection H as <- <- <- <-.
  repeat split; assumption.
Qed.

Lemma group_nil (s : list ascii) : group s [] = s.
Proof. rewrite <- (app_nil_r s) at 1. apply group_app. Qed.

Lemma match_dmY_first (d m y : list ascii) (nd nm ny : Z) :
  day_text d nd -> month_text m nm -> year_text y ny ->
  (1 <=? nd) && (nd <=? 31) = true -> (1 <=? nm) && (nm <=? 12) = true ->
  match_dmY (d ++ "-"%char :: m ++ "-"%char :: y) = Some (d, m, y, []).
Proof.
  intros Hd Hm Hy Hnd Hnm. unfold match_dmY.
  rewrite (re_d_first d nd (fun s1 s2 => _) _ Hd Hnd).
  rewrite (re_m_first m nm (fun s3 s4 => _) _ Hm Hnm).
  rewrite <- (app_nil_r y) at 1.
  rewrite (re_Y_first y ny _ _ Hy).
  rewrite group_nil, (group_app m ("-"%char :: y)),
    (group_app d ("-"%char :: m ++ "-"%char :: y)).
  reflexivity.
Qed.


Lemma valid_date_bounds (y m d : Z) :
  valid_date y m d = true ->
  (1 <=? d) && (d <=? 31) = true /\ (1 <=? m) && (m <=? 12) = true.
Proof.
  unfold valid_date. rewrite !andb_true_iff, !Z.leb_le.
  pose proof (days_in_month_le y m). lia.
Qed.

Lemma new_raises_ValueError (y m d : Z) (e : exn) :
  Datetime.new y m d = inl e -> exists msg, e = ValueError msg.
Proof.
  unfold Datetime.new.
  repeat match goal with |- context [if ?c then _ else _] => destruct c end;
    intros [= <-]; eauto.
Qed.

Lemma strptime_raises_ValueError (raw : string) (e : exn) :
  strptime_dmY (PStr raw) = inl e -> exists msg, e = ValueError msg.
Proof.
  unfold strptime_dmY.
  destruct (match_dmY (chars raw)) as [[[[d m] y] [|c rest]]|];
    try (intros [= <-]; eauto).
  destruct (int y), (int m), (int d); try (intros [= <-]; eauto).
  apply new_raises_ValueError.
Qed.

Lemma date_validator_outcomes (raw : string) :
  raised (validate DateValidator (PStr raw)) = None
  \/ raised (validate DateValidator (PStr raw)) = Some bad_format.
Proof.
  cbn [validate]. unfold DateValidator_validate.
  destruct (strptime_dmY (PStr raw)) as [e|t] eqn:E; [|left; reflexivity].
  apply strptime_raises_ValueError in E as [msg ->]. right. reflexivity.
Qed.

Lemma date_validator_accepts (raw : string) :
  raised (validate DateValidator (PStr raw)) = None <->
  accepted_date_text (chars raw).
Proof.
  cbn [validate]. unfold DateValidator_validate. split.
  - destruct (strptime_dmY (PStr raw)) as [[]|t] eqn:E; try discriminate.
    intros _. unfold strptime_dmY in E.
    destruct (match_dmY (chars raw)) as [[[[d m] y] [|c rest]]|] eqn:M;
      try discriminate.
    apply match_dmY_sound in M as (Hs & Hd & Hm & Hy).
    apply re_d_shape in Hd as [nd Hd]. apply re_m_shape in Hm as [nm Hm].
    apply re_Y_shape in Hy as [ny Hy].
    rewrite (day_text_int _ _ Hd), (month_text_int _ _ Hm),
      (year_text_int _ _ Hy) in E.
    rewrite app_nil_r in Hs.
    exists d, m, y, nd, nm, ny. repeat split; try assumption.
    apply new_valid. eauto.
  - intros (d & m & y & nd & nm & ny & Hs & Hd & Hm & Hy & Hv).
    unfold strptime_dmY. rewrite Hs.
    destruct (valid_date_bounds _ _ _ Hv) as [Hnd Hnm].
    rewrite (match_dmY_first d m y nd nm ny Hd Hm Hy Hnd Hnm).
    rewrite (day_text_int _ _ Hd), (month_text_int _ _ Hm),
      (year_text_int _ _ Hy).
    apply new_valid in Hv as [t ->]. reflexivity.
Qed.

Lemma dd_mm_yyyy_accepted (cs : list ascii) (nd nm ny : Z) :
  dd_mm_yyyy cs nd nm ny -> valid_date ny nm nd = true ->
  accepted_date_text cs.
Proof.
  intros (a & b & c & d & e & f & g & h & -> & Hall & -> & -> & ->) Hv.
  repeat match goal with H : Forall _ (_ :: _) |- _ =>
    apply Forall_cons in H; destruct H as [? H] end.
  exists [a; b], [c; d], [e; f; g; h]. do 3 eexists.
  split; [reflexivity|]. split; [left; eauto 10|]. split; [left; eauto 10|].
  split; [do 4 eexists; eauto 10|exact Hv].
Qed.

(** C6, the claim as stated fails: "1-5-1990" is accepted, although its day
    and its month are written with one digit each. *)
Lemma date_validator_accepts_short_fields :
  raised (validate DateValidator (PStr "1-5-1990")) = None
  /\ ~ (exists nd nm ny, dd_mm_yyyy (chars "1-5-1990") nd nm ny).
Proof.
  split; [reflexivity|].
  intros (nd & nm & ny & a & b & c & d & e & f & g & h & H & _).
  discriminate H.
Qed.

(** C6, amended.  For every string [raw] of characters U+0000..U+00FF, the
    strings of this development, [DateValidator.validate(raw)] accepts iff
    [raw] is a day, a month and a year separated by hyphens, the day written
    as two of the digits 0-9, one such digit, or a blank and one such digit,
    the month as two such digits or one, the year as four such digits, and
    the three numbers are a date of the calendar with a year from 1 to 9999;
    every other such string is rejected with the bad-format error.  In
    particular every [dd-mm-yyyy] string of a calendar date is accepted, and
    "31-02-2020", "00-01-2020" and "15/05/1990" are rejected.  Strings with
    characters above U+00FF, where [\d] takes further digits, are outside
    the statement. *)
Theorem date_validator_decides (raw : string) :
  (raised (validate DateValidator (PStr raw)) = None <->
     accepted_date_text (chars raw))
  /\ (raised (validate DateValidator (PStr raw)) = Some bad_format <->
     ~ accepted_date_text (chars raw))
  /\ (forall nd nm ny,
        dd_mm_yyyy (chars raw) nd nm ny -> valid_date ny nm nd = true ->
        raised (validate DateValidator (PStr raw)) = None)
  /\ raised (validate DateValidator (PStr "31-02-2020")) = Some bad_format
  /\ raised (validate DateValidator (PStr "00-01-2020")) = Some bad_format
  /\ raised (validate DateValidator (PStr "15/05/1990")) = Some bad_format.
Proof.
  pose proof (date_validator_accepts raw) as Hacc.
  split; [exact Hacc|]. split; [|split; [|repeat split]].
  - destruct (date_validator_outcomes raw) as [H|H]; rewrite H.
    + split; [discriminate|]. intros Hno. exfalso. apply Hno, Hacc, H.
    + split; [|reflexivity]. intros _ Hyes. apply Hacc in Hyes. congruence.
  - intros nd nm ny Hf Hv. apply Hacc. exact (dd_mm_yyyy_accepted _ _ _ _ Hf Hv).
Qed.

(** Texts that are accepted: the padded form, the short form and the form
    with a blank; and texts that are not: a year of three digits, text after
    the year, a day that the month does not have. *)
Example date_validator_samples :
  map (fun s => raised (validate DateValidator (PStr s)))
      ["15-05-1990"; "1-5-1990"; " 1-5-1990"; "29-02-2000";
       "15-05-990"; "15-05-19900"; "29-02-1900"; "01-01-0000"; ""]
  = [None; None; None; None;
     Some bad_format; Some bad_format; Some bad_format; Some bad_format;
     Some bad_format].
Proof. reflexivity. Qed.

(** A value that is not a string is not a format error: [strptime] raises
    [TypeError] and the validator lets it through. *)
Example date_validator_on_None :
  exists msg, raised (validate DateValidator PNone) = Some (TypeError msg).
Proof. eexists. reflexivity. Qed.

(** *** The day count *)

Lemma new_of_valid (y m d : Z) :
  valid_date y m d = true -> Datetime.new y m d = inr (mk_datetime y m d 0 0 0 0).
Proof.
  unfold valid_date, Datetime.new.
  destruct (MINYEAR <=? y), (y <=? MAXYEAR), (1 <=? m), (m <=? 12),
    (1 <=? d), (d <=? days_in_month y m); cbn; congruence.
Qed.

Lemma days_before_year_step (y : Z) :
  days_before_year (y + 1) - days_before_year y
  = 365 + (if is_leap y then 1 else 0).
Proof.
  unfold days_before_year, is_leap. cbv zeta.
  replace (y + 1 - 1) with y by lia.
  destruct (Z.eqb_spec (y mod 4) 0), (Z.eqb_spec (y mod 100) 0),
    (Z.eqb_spec (y mod 400) 0); cbn [andb orb negb];
    Z.div_mod_to_equations; lia.
Qed.

(** From one year to the next the same day of the year is 365 or 366 days
    later. *)
Lemma year_step (y m d : Z) :
  ymd2ord (y + 1) m d - ymd2ord y m d = 365
  \/ ymd2ord (y + 1) m d - ymd2ord y m d = 366.
Proof.
  pose proof (days_before_year_step y) as Hy.
  unfold ymd2ord, days_before_month.
  set (T := nth _ _ _).
  destruct (2 <? m), (is_leap y), (is_leap (y + 1)); cbn [andb] in *; lia.
Qed.

(** After midnight the clock is past the midnight of its own day. *)
Lemma gt_midnight (t : datetime) :
  well_formed t ->
  0 < hour t + minute t + second t + microsecond t ->
  Datetime.gt t (mk_datetime (year t) (month t) (day t) 0 0 0 0) = true.
Proof.
  intros (_ & Hh & Hm & Hs & Hu) Hpos.
  unfold Datetime.gt, fields. cbn [cmp year month day hour minute second microsecond].
  rewrite !Z.compare_refl.
  destruct (Z.compare_spec (hour t) 0); [|lia|reflexivity].
  destruct (Z.compare_spec (minute t) 0); [|lia|reflexivity].
  destruct (Z.compare_spec (second t) 0); [|lia|reflexivity].
  destruct (Z.compare_spec (microsecond t) 0); [lia|lia|reflexivity].
Qed.

(** The whole days from a reading after midnight to a later midnight: one
    less than the difference of the day numbers. *)
Lemma days_from_midnight (t : datetime) (y : Z) :
  well_formed t ->
  0 < hour t + minute t + second t + microsecond t ->
  days (Datetime.sub (mk_datetime y (month t) (day t) 0 0 0 0) t)
  = ymd2ord y (month t) (day t) - ymd2ord (year t) (month t) (day t) - 1.
Proof.
  intros (_ & Hh & Hm & Hs & Hu) Hpos.
  unfold Datetime.sub, new_timedelta, toordinal.
  cbn [days year month day hour minute second microsecond].
  Z.div_mod_to_equations. lia.
Qed.

(** X12.  On the birthday itself, at any time after midnight,
    [days_to_birthday] counts to next year's birthday: the result is 364 or
    365, never 0. *)
Lemma days_to_birthday_same_day (today bd : datetime) (raw : string) :
  well_formed today ->
  strptime_dmY (PStr raw) = inr bd ->
  month bd = month today -> day bd = day today ->
  0 < hour today + minute today + second today + microsecond today ->
  valid_date (year today + 1) (month today) (day today) = true ->
  exists n,
    days_to_birthday today (RecordBirthday_init (PStr raw))
    = Return (PInt n) (RecordBirthday_init (PStr raw))
    /\ (n = 364 \/ n = 365).
Proof.
  intros Hwf Hs Hm Hd Hpos Hnext.
  unfold days_to_birthday.
  cbn [get_value birthday RecordBirthday_init Field_init value].
  destruct raw as [|c raw]; [vm_compute in Hs; discriminate|].
  cbn [truthy String.eqb negb]. rewrite Hs, Hm, Hd.
  rewrite (new_of_valid _ _ _ (proj1 Hwf)), (gt_midnight _ Hwf Hpos).
  rewrite (new_of_valid _ _ _ Hnext), (days_from_midnight _ _ Hwf Hpos).
  eexists. split; [reflexivity|].
  destruct (year_step (year today) (month today) (day today)); lia.
Qed.

Lemma days_to_birthday_same_day_witness :
  exists n,
    days_to_birthday (mk_datetime 2024 5 15 9 30 0 0)
      (RecordBirthday_init (PStr "15-05-1990"))
    = Return (PInt n) (RecordBirthday_init (PStr "15-05-1990"))
    /\ (n = 364 \/ n = 365).
Proof.
  apply (days_to_birthday_same_day (mk_datetime 2024 5 15 9 30 0 0)
           (mk_datetime 1990 5 15 0 0 0 0) "15-05-1990");
    first [reflexivity | (repeat split; (reflexivity || discriminate || lia))].
Defined.

End DateProperties.

(** ** More on the phone list *)

Lemma filter_idempotent {A} (f : A -> bool) (l : list A) :
  List.filter f (List.filter f l) = List.filter f l.
Proof.
  induction l as [|x l IH]; cbn; [reflexivity|].
  destruct (f x) eqn:E; cbn; rewrite ?E, IH; reflexivity.
Qed.

Lemma Forall_filter_bool {A} (P : A -> Prop) (f : A -> bool) (l : list A) :
  Forall P l -> Forall P (List.filter f l).
Proof.
  induction 1 as [|x l Hx _ IH]; cbn; [constructor|].
  destruct (f x); [constructor; assumption|exact IH].
Qed.

Lemma filter_all_differ (x : string) (l : list Field) :
  Forall (fun q => str (get_value q) <> x)
         (List.filter (fun q => negb (String.eqb (str (get_value q)) x)) l).
Proof.
  induction l as [|q l IH]; cbn; [constructor|].
  destruct (String.eqb (str (get_value q)) x) eqn:E; cbn; [exact IH|].
  constructor; [apply String.eqb_neq; exact E|exact IH].
Qed.

Lemma remove_phone_is_filter (raw : pyval) (self : RecordPhone) :
  remove_phone raw self
  = mk_RecordPhone (phone self)
      (List.filter (fun q => negb (String.eqb (str (get_value q)) (str raw)))
                   (phones self)).
Proof.
  unfold remove_phone. destruct (existsb _ _) eqn:Hin; [reflexivity|].
  rewrite (filter_no_match _ _ Hin). destruct self; reflexivity.
Qed.

(** X1.  After [remove_phone(raw)] no entry of the list stringifies to
    [str(raw)], the entries that are left were in the list before, and a
    second [remove_phone(raw)] changes nothing. *)
Theorem remove_phone_complete (raw : pyval) (self : RecordPhone) :
  Forall (fun q => str (get_value q) <> str raw)
         (phones (remove_phone raw self))
  /\ (forall q, In q (phones (remove_phone raw self)) -> In q (phones self))
  /\ remove_phone raw (remove_phone raw self) = remove_phone raw self.
Proof.
  rewrite !remove_phone_is_filter. cbn [phones phone].
  split; [apply filter_all_differ|]. split.
  - intros q Hq. apply filter_In in Hq. tauto.
  - rewrite filter_idempotent. reflexivity.
Qed.

(** X2.  A number the validator accepts and that no entry of the list
    stringifies to: [add_phone] and then [remove_phone] of it give back the
    record as it was. *)
Theorem add_then_remove_phone (raw : pyval) (self : RecordPhone) :
  raised (validate PhoneValidator raw) = None ->
  Forall (fun q => str (get_value q) <> str raw) (phones self) ->
  remove_phone raw (state_of (add_phone raw self)) = self.
Proof.
  intros Hok Hnew. rewrite (add_phone_accepted _ _ Hok). cbn [state_of].
  rewrite remove_phone_is_filter. cbn [phones phone].
  rewrite List.filter_app. cbn [List.filter get_value Field_init value].
  rewrite String.eqb_refl. cbn [negb]. rewrite app_nil_r.
  apply filter_some_match in Hnew. rewrite (filter_no_match _ _ Hnew).
  destruct self; reflexivity.
Qed.

Lemma add_then_remove_phone_witness :
  let self := mk_RecordPhone (Field_init PNone (Some PhoneValidator))
                [Field_init (PStr "555888777") (Some PhoneValidator)] in
  remove_phone (PStr "123456789") (state_of (add_phone (PStr "123456789") self))
  = self.
Proof.
  apply (add_then_remove_phone (PStr "123456789")); [reflexivity|].
  repeat constructor. discriminate.
Defined.

(** The scenario of the demonstration script in general: a number added any
    number of times to an empty list is removed by one [remove_phone]. *)
Lemma remove_phone_removes_duplicates (raw : pyval) (n : nat) (f : Field) :
  remove_phone raw
    (mk_RecordPhone f (repeat (Field_init raw (Some PhoneValidator)) n))
  = mk_RecordPhone f [].
Proof.
  rewrite remove_phone_is_filter. cbn [phones phone]. f_equal.
  induction n as [|n IH]; cbn; [reflexivity|].
  rewrite String.eqb_refl. cbn. exact IH.
Qed.

(** X3.  [add_phone] and [remove_phone] keep the list valid, whatever their
    arguments and whether or not [add_phone] raises; [edit_phone] keeps it
    valid when the replacement is a number the validator accepts. *)
Theorem phones_valid_kept (self : RecordPhone) (p q : pyval) :
  phones_valid (phones self) ->
  phones_valid (phones (state_of (add_phone p self)))
  /\ phones_valid (phones (remove_phone p self))
  /\ (raised (validate PhoneValidator q) = None ->
      phones_valid (phones (snd (edit_phone p q self)))).
Proof.
  intros Hv. split; [|split].
  - destruct (raised (validate PhoneValidator p)) as [e|] eqn:Hp.
    + assert (add_phone p self = Raise e self) as ->; [|exact Hv].
      unfold add_phone, set_value. cbn [validator Field_init].
      destruct (validate PhoneValidator p) as [[] vd|e' vd]; [discriminate|].
      cbn in Hp. congruence.
    + rewrite (add_phone_accepted _ _ Hp). cbn [state_of phones].
      apply Forall_app. split; [exact Hv|]. repeat constructor. exact Hp.
  - rewrite remove_phone_is_filter. cbn [phones].
    apply Forall_filter_bool. exact Hv.
  - intros Hq. unfold edit_phone.
    destruct (edit_phone_loop _ _ _) as [i|]; cbn [snd phones]; [|exact Hv].
    apply Forall_insert; [exact Hv|]. split; [reflexivity|exact Hq].
Qed.

Lemma phones_valid_kept_witness :
  let self := mk_RecordPhone (Field_init PNone (Some PhoneValidator))
                [Field_init (PStr "555888777") (Some PhoneValidator);
                 Field_init (PStr "987654321") (Some PhoneValidator)] in
  (map get_value (phones (state_of (add_phone (PStr "987654321") self)))
   = [PStr "555888777"; PStr "987654321"; PStr "987654321"]
   /\ phones_valid (phones (state_of (add_phone (PStr "987654321") self))))
  /\ (map get_value (phones (remove_phone (PStr "987654321") self))
      = [PStr "555888777"]
      /\ phones_valid (phones (remove_phone (PStr "987654321") self)))
  /\ (map get_value
        (phones (snd (edit_phone (PStr "987654321") (PStr "123456789") self)))
      = [PStr "555888777"; PStr "123456789"]
      /\ phones_valid
           (phones
              (snd (edit_phone (PStr "987654321") (PStr "123456789") self)))).
Proof.
  intros self.
  assert (phones_valid (phones self)) as Hvalid
    by (repeat constructor).
  destruct (phones_valid_kept self (PStr "987654321") (PStr "123456789") Hvalid)
    as (Hadd & Hremove & Hedit).
  split; [split; [reflexivity|exact Hadd]|].
  split; [split; [reflexivity|exact Hremove]|].
  split; [reflexivity|exact (Hedit eq_refl)].
Defined.

(** ** More on the notes *)

Lemma wf_info_keys (self : RecordInfo) :
  wf_info self -> keys_are_objects (notes self).
Proof.
  unfold wf_info, keys_are_objects. apply List.Forall_impl.
  intros e [(lk & Hk & _) _]. eauto.
Qed.

Lemma dict_set_fresh (k : key) (l : loc) (d : dict) :
  dict_contains k d = false -> dict_set k l d = d ++ [(k, l)].
Proof.
  unfold dict_contains.
  induction d as [|[k' l'] d IH]; cbn; [reflexivity|].
  intros H. apply orb_false_iff in H as [-> H]. rewrite (IH H). reflexivity.
Qed.

Lemma fresh_key_absent (self : RecordInfo) (l : loc) :
  wf_info self -> length (store self) <= l ->
  dict_contains (KObj l) (notes self) = false.
Proof.
  unfold wf_info, dict_contains. generalize (notes self) as d. intros d H Hl.
  induction H as [|[k lv] d [(lk & Hk & Hlt) _] _ IH]; cbn in *; [reflexivity|].
  subst k. rewrite IH, orb_false_r. apply Nat.eqb_neq. lia.
Qed.

Lemma add_note_notes (t n : pyval) (self : RecordInfo) :
  wf_info self ->
  notes (add_note t n self)
  = notes self ++ [(KObj (S (length (store self))), length (store self))]
  /\ store (add_note t n self)
     = store self ++ [Field_init n None; Field_init t None].
Proof.
  intros Hwf. unfold add_note, alloc. cbn [notes store].
  rewrite length_app. cbn [length]. rewrite Nat.add_1_r.
  rewrite dict_set_fresh by (apply fresh_key_absent; [exact Hwf|lia]).
  rewrite <- app_assoc. split; reflexivity.
Qed.

Lemma note_value_old (l : loc) (self : RecordInfo) (more : list Field)
    (tg nt : Field) (d : dict) :
  l < length (store self) ->
  note_value l (mk_RecordInfo (store self ++ more) tg nt d)
  = note_value l self.
Proof.
  intros Hl. unfold note_value. cbn [store].
  rewrite lookup_app_l by exact Hl. reflexivity.
Qed.

Lemma add_note_displayed (t n : pyval) (self : RecordInfo) :
  wf_info self ->
  displayed_notes (add_note t n self)
  = displayed_notes self ++ [(Some t, Some n)].
Proof.
  intros Hwf. destruct (add_note_notes t n self Hwf) as [Hn Hs].
  unfold displayed_notes. rewrite Hn, map_app. f_equal.
  - apply map_ext_Forall. unfold wf_info in Hwf.
    revert Hwf. apply List.Forall_impl.
    intros [k lv] [(lk & Hk & Hlk) Hlv]. cbn [fst snd] in *. subst k.
    unfold note_value. rewrite Hs.
    rewrite !lookup_app_l by assumption. reflexivity.
  - cbn [map fst snd]. unfold note_value. rewrite Hs.
    rewrite (lookup_app_r _ _ (S _)) by lia.
    rewrite (lookup_app_r _ _ (length _)) by lia.
    replace (S (length (store self)) - length (store self)) with 1 by lia.
    rewrite Nat.sub_diag. reflexivity.
Qed.

Lemma add_note_wf (t n : pyval) (self : RecordInfo) :
  wf_info self -> wf_info (add_note t n self).
Proof.
  intros Hwf. destruct (add_note_notes t n self Hwf) as [Hn Hs].
  unfold wf_info. rewrite Hn, Hs, length_app. cbn [length].
  apply Forall_app. split.
  - revert Hwf. apply List.Forall_impl.
    intros [k lv] [(lk & Hk & Hlk) Hlv]. cbn [fst snd] in *.
    split; [exists lk; split; [exact Hk|lia]|lia].
  - repeat constructor; cbn [fst snd]; [eexists; split; [reflexivity|lia]|lia].
Qed.

(** X5.  In a record whose keys and values are objects of its store,
    [add_note(t, n)] appends one entry that displays as [t -> n] and leaves
    the entries before it as they were, also when the tag [t] is in use
    already: nothing is overwritten.  The record stays well formed. *)
Theorem add_note_appends (t n : pyval) (self : RecordInfo) :
  wf_info self ->
  displayed_notes (add_note t n self)
  = displayed_notes self ++ [(Some t, Some n)]
  /\ wf_info (add_note t n self).
Proof.
  intros Hwf. split; [apply add_note_displayed|apply add_note_wf]; exact Hwf.
Qed.

Lemma add_note_appends_witness :
  let self := add_note (PStr "Family") (PStr "I have a wife") RecordInfo_init in
  displayed_notes (add_note (PStr "Family") (PStr "Two children") self)
  = displayed_notes self ++ [(Some (PStr "Family"), Some (PStr "Two children"))]
  /\ wf_info (add_note (PStr "Family") (PStr "Two children") self).
Proof.
  apply (add_note_appends (PStr "Family") (PStr "Two children")).
  unfold wf_info. cbn. constructor; [|constructor].
  cbn. split; [exists 1; split; [reflexivity|lia]|lia].
Defined.

Lemma call_note_effect (c : note_call) (self : RecordInfo) :
  wf_info self ->
  wf_info (call_note self c)
  /\ displayed_notes (call_note self c) = displayed_notes self ++ added [c].
Proof.
  intros Hwf. destruct c as [t n|t n|t]; cbn [call_note added flat_map].
  - rewrite app_nil_r.
    split; [apply add_note_wf|apply add_note_displayed]; exact Hwf.
  - unfold edit_note.
    rewrite (objects_miss_values t _ (wf_info_keys _ Hwf)).
    cbn [state_of]. rewrite app_nil_r. split; [exact Hwf|reflexivity].
  - unfold remove_note.
    rewrite (objects_miss_values t _ (wf_info_keys _ Hwf)).
    cbn [snd]. rewrite app_nil_r. split; [exact Hwf|reflexivity].
Qed.

Lemma call_notes_effect (cs : list note_call) (self : RecordInfo) :
  wf_info self ->
  wf_info (call_notes cs self)
  /\ displayed_notes (call_notes cs self) = displayed_notes self ++ added cs.
Proof.
  revert self. induction cs as [|c cs IH]; intros self Hwf.
  - cbn. rewrite app_nil_r. split; [exact Hwf|reflexivity].
  - destruct (call_note_effect c self Hwf) as [Hw Hd].
    destruct (IH _ Hw) as [Hw' Hd'].
    change (call_notes (c :: cs) self) with (call_notes cs (call_note self c)).
    split; [exact Hw'|]. rewrite Hd', Hd, <- app_assoc. f_equal.
    unfold added. cbn [flat_map]. rewrite app_nil_r. reflexivity.
Qed.

(** X6.  Whatever sequence of [add_note], [edit_note] and [remove_note]
    calls is made on a new [RecordInfo], the notes it displays are those of
    the [add_note] calls, one entry each, in the order of the calls: no
    [edit_note] and no [remove_note] has any effect. *)
Theorem notes_follow_the_adds (cs : list note_call) :
  displayed_notes (call_notes cs RecordInfo_init) = added cs.
Proof.
  destruct (call_notes_effect cs RecordInfo_init) as [_ H]; [constructor|].
  exact H.
Qed.

Lemma lookup_by_tag_misses_witness :
  let self := add_note (PStr "Pets") (PStr "Two dogs") RecordInfo_init in
  edit_note (PStr "Pets") (PStr "One cat") self
  = Return ["Note with this tag does not exist."] self
  /\ remove_note (PStr "Pets") self
     = ([("Note with tag " ++ str (PStr "Pets") ++ " does not exist.")%string],
        self).
Proof.
  apply (lookup_by_tag_misses (PStr "Pets") (PStr "One cat")).
  apply add_note_keys, init_keys.
Defined.

(** ** More on the e-mail validator *)

Lemma In_drop {A} (x : A) (n : nat) (l : list A) : In x (drop n l) -> In x l.
Proof.
  intros H. rewrite <- (take_drop n l). apply in_or_app. right. exact H.
Qed.

(** A scan finds nothing where the pattern matches at no position that is
    still to be tried. *)
Lemma scan_no_match (r : regex) (s : list ascii) (skip : nat) :
  (forall n, skip <= n -> rmatch r (drop n s) Some = None) ->
  scan r skip s = [].
Proof.
  revert skip. induction s as [|c s IH]; intros skip H.
  - destruct skip; cbn [scan]; [|reflexivity].
    pose proof (H 0 (Nat.le_refl _)) as H0.
    change (rmatch r [] Some = None) in H0. rewrite H0. reflexivity.
  - destruct skip as [|k]; cbn [scan].
    + pose proof (H 0 (Nat.le_refl _)) as H0.
      change (rmatch r (c :: s) Some = None) in H0. rewrite H0. apply IH.
      intros n Hn. apply (H (S n)). lia.
    + apply IH. intros n Hn. apply (H (S n)). lia.
Qed.

(** A scan that finds something has matched the pattern at some position. *)
Lemma scan_found (r : regex) (s : list ascii) (skip : nat) :
  scan r skip s <> [] ->
  exists n rest, rmatch r (drop n s) Some = Some rest.
Proof.
  revert skip. induction s as [|c s IH]; intros skip H.
  - destruct skip; cbn [scan] in H; [|contradiction].
    destruct (rmatch r [] Some) as [rest|] eqn:E; [|contradiction].
    exists 0, rest. exact E.
  - destruct skip as [|k]; cbn [scan] in H.
    + destruct (rmatch r (c :: s) Some) as [rest|] eqn:E.
      * exists 0, rest. exact E.
      * apply IH in H as (n & rest & Hn). exists (S n), rest. exact Hn.
    + apply IH in H as (n & rest & Hn). exists (S n), rest. exact Hn.
Qed.

(** Every text the pattern matches holds an [@] and, after it, a dot. *)
Lemma email_re_has_at_and_dot (p : list ascii) :
  matches email_re p ->
  exists before after, p = before ++ "@"%char :: after /\ In "."%char after.
Proof.
  unfold email_re, Plus, Chr. intros H.
  apply matches_Cat in H as (p1 & q1 & -> & _ & H).
  apply matches_Cat in H as (p2 & q2 & -> & _ & H).
  apply matches_Cat in H as (p3 & q3 & -> & Hat & H).
  apply matches_Cat in H as (p4 & q4 & -> & _ & H).
  apply matches_Cat in H as (p5 & q5 & -> & Hseg & _).
  apply matches_Cat in Hseg as (p6 & q6 & -> & Hdot & _).
  apply matches_Cls in Hat as (c & -> & Hc). apply Ascii.eqb_eq in Hc as <-.
  apply matches_Cls in Hdot as (c & -> & Hc). apply Ascii.eqb_eq in Hc as <-.
  exists (p1 ++ p2), (p4 ++ (["."%char] ++ q6) ++ q5). split.
  - rewrite <- !app_assoc. reflexivity.
  - apply in_or_app. right. left. reflexivity.
Qed.

Lemma no_at_no_match (s : list ascii) (n : nat) :
  ~ In "@"%char s -> rmatch email_re (drop n s) Some = None.
Proof.
  intros Hno. apply rmatch_None_iff. intros p rest Hs Hp. exfalso.
  apply email_re_has_at_and_dot in Hp as (b & a & -> & _).
  apply Hno, (In_drop _ n). rewrite Hs.
  apply in_or_app. left. apply in_or_app. right. left. reflexivity.
Qed.

Lemma no_dot_no_match (s : list ascii) (n : nat) :
  ~ In "."%char s -> rmatch email_re (drop n s) Some = None.
Proof.
  intros Hno. apply rmatch_None_iff. intros p rest Hs Hp. exfalso.
  apply email_re_has_at_and_dot in Hp as (b & a & -> & Hdot).
  apply Hno, (In_drop _ n). rewrite Hs.
  apply in_or_app. left. apply in_or_app. right. right. exact Hdot.
Qed.

(** X8.  An e-mail address that [EmailValidator] accepts holds an [@] and
    a dot; a string without one of them is rejected with the validator's
    error, and the validator is left as it was. *)
Theorem email_needs_at_and_dot (a : option pyval) (s : string) :
  ~ (In "@"%char (chars s) /\ In "."%char (chars s)) ->
  validate (EmailValidator a) (PStr s)
  = Raise (ValueError "Incorrect email address") (EmailValidator a).
Proof.
  intros Hno. cbn [validate EmailValidator_validate].
  assert (findall email_re s = []) as ->; [|reflexivity].
  unfold findall.
  destruct (scan email_re 0 (chars s)) as [|m ms] eqn:E; [reflexivity|].
  exfalso. apply Hno.
  assert (scan email_re 0 (chars s) <> []) as Hne by (rewrite E; discriminate).
  apply scan_found in Hne as (n & rest & Hm).
  apply rmatch_sound in Hm as (p & rest' & Hs & Hp & _).
  apply email_re_has_at_and_dot in Hp as (b & af & -> & Hdot).
  split; apply (In_drop _ n); rewrite Hs; apply in_or_app; left;
    apply in_or_app; right; [left; reflexivity|right; exact Hdot].
Qed.

Lemma email_needs_at_and_dot_witness :
  validate (EmailValidator None) (PStr "john.doe.gmail.com")
  = Raise (ValueError "Incorrect email address") (EmailValidator None).
Proof.
  apply (email_needs_at_and_dot None "john.doe.gmail.com").
  intros [H _]. cbn in H.
  repeat (destruct H as [H|H]; [discriminate H|]). exact H.
Defined.

Lemma matches_Star_Cls (f : ascii -> bool) (l : list ascii) :
  Forall (fun c => f c = true) l -> matches (Star (Cls f)) l.
Proof.
  induction 1 as [|c l Hc _ IH]; [constructor|].
  change (c :: l) with ([c] ++ l). constructor; [constructor; exact Hc|exact IH].
Qed.

Lemma matches_Plus_Cls (f : ascii -> bool) (l : list ascii) :
  l <> [] -> Forall (fun c => f c = true) l -> matches (Plus (Cls f)) l.
Proof.
  intros Hne H. destruct H as [|c l Hc Hl]; [contradiction|].
  change (c :: l) with ([c] ++ l). unfold Plus.
  constructor; [constructor; exact Hc|apply matches_Star_Cls; exact Hl].
Qed.

Lemma alnum_not_at (c : ascii) : alnum c = true -> c <> "@"%char.
Proof. intros H ->. discriminate H. Qed.

Lemma alpha_alnum (c : ascii) : alpha c = true -> alnum c = true.
Proof. unfold alpha, alnum. intros ->. reflexivity. Qed.

Lemma alpha_alpha_bar (c : ascii) : alpha c = true -> alpha_bar c = true.
Proof.
  unfold alpha, alpha_bar. intros H. apply orb_true_iff in H as [-> | ->];
    [reflexivity|apply orb_true_r].
Qed.

Lemma alnum_alnum_hyphen (c : ascii) :
  alnum c = true -> alnum_hyphen c = true.
Proof. unfold alnum, alnum_hyphen. intros ->. reflexivity. Qed.

Lemma Forall_not_In (f : ascii -> bool) (x : ascii) (l : list ascii) :
  f x = false -> Forall (fun c => f c = true) l -> ~ In x l.
Proof.
  intros Hx H Hin. rewrite List.Forall_forall in H.
  apply H in Hin. congruence.
Qed.

(** With a single [x] in the subject, what is left after a prefix that
    holds [x] holds none. *)
Lemma rest_after_only (x : ascii) (l1 l2 p r : list ascii) :
  ~ In x l1 -> ~ In x l2 -> p ++ r = l1 ++ x :: l2 -> In x p -> ~ In x r.
Proof.
  revert p. induction l1 as [|c l1 IH]; intros p H1 H2 Heq Hp.
  - destruct p as [|c p]; [contradiction|]. cbn in Heq.
    injection Heq as _ Heq. intros Hr. apply H2. rewrite <- Heq.
    apply in_or_app. right. exact Hr.
  - destruct p as [|c' p]; [contradiction|]. cbn in Heq.
    injection Heq as -> Heq. apply (IH p); [|exact H2|exact Heq|].
    + intros H. apply H1. right. exact H.
    + destruct Hp as [->|Hp]; [|exact Hp]. exfalso. apply H1. left. reflexivity.
Qed.

(** X9.  A plain address, [local@domain.tld] with a local part and a
    domain of letters and digits and a top-level segment of at least two
    letters, is accepted, and the validator records it. *)
Theorem email_plain_address_accepted (a : option pyval) (s : string)
    (local dom tld : list ascii) :
  chars s = local ++ "@"%char :: dom ++ "."%char :: tld ->
  local <> [] -> Forall (fun c => alnum c = true) local ->
  dom <> [] -> Forall (fun c => alnum c = true) dom ->
  2 <= length tld -> Forall (fun c => alpha c = true) tld ->
  validate (EmailValidator a) (PStr s)
  = Return tt (EmailValidator (Some (PStr s))).
Proof.
  intros Hs Hl Hla Hd Hda Ht Hta. cbn [validate EmailValidator_validate].
  assert (length (findall email_re s) = 1) as ->; [|reflexivity].
  unfold findall. rewrite Hs.
  assert (matches email_re (local ++ "@"%char :: dom ++ "."%char :: tld)) as Hm.
  { unfold email_re.
    change (local ++ "@"%char :: dom ++ "."%char :: tld)
      with ([] ++ local ++ ["@"%char] ++ dom ++ "."%char :: tld).
    constructor; [constructor|].
    constructor; [apply matches_Plus_Cls; assumption|].
    constructor; [constructor; reflexivity|].
    constructor.
    - apply matches_Plus_Cls; [assumption|].
      revert Hda. apply List.Forall_impl, alnum_alnum_hyphen.
    - unfold Plus. rewrite <- (app_nil_r (_ :: tld)).
      constructor; [|constructor].
      change ("."%char :: tld) with (["."%char] ++ tld).
      constructor; [constructor; reflexivity|].
      destruct tld as [|x [|y tld]]; cbn in Ht; try lia.
      apply Forall_cons in Hta as [Hx Hta].
      apply Forall_cons in Hta as [Hy Hta].
      change (x :: y :: tld) with ([x] ++ [y] ++ tld). unfold AtLeast2.
      constructor; [constructor; apply alpha_alpha_bar, Hx|].
      constructor; [constructor; apply alpha_alpha_bar, Hy|].
      apply matches_Star_Cls. revert Hta.
      apply List.Forall_impl, alpha_alpha_bar. }
  set (subj := local ++ "@"%char :: dom ++ "."%char :: tld) in *.
  destruct (rmatch email_re subj Some) as [rest|] eqn:E.
  2:{ pose proof (proj1 (rmatch_None_iff email_re subj Some) E subj []
                    (eq_sym (app_nil_r subj)) Hm). discriminate. }
  pose proof E as E'. apply rmatch_sound in E' as (p & rest' & Hsub & Hp & [= ->]).
  apply email_re_has_at_and_dot in Hp as (b & af & Hpat & _).
  assert (~ In "@"%char rest) as Hrest.
  { apply (rest_after_only "@" local (dom ++ "."%char :: tld) p rest).
    - apply (Forall_not_In alnum); [reflexivity|exact Hla].
    - intros H. apply in_app_or in H as [H|[H|H]].
      + revert H. apply (Forall_not_In alnum); [reflexivity|exact Hda].
      + discriminate H.
      + revert H. apply (Forall_not_In alnum); [reflexivity|].
        revert Hta. apply List.Forall_impl, alpha_alnum.
    - symmetry. exact Hsub.
    - rewrite Hpat. apply in_or_app. right. left. reflexivity. }
  destruct p as [|c p]; [destruct b; discriminate Hpat|].
  rewrite Hsub. cbn [scan app].
  change (c :: p ++ rest) with ((c :: p) ++ rest). rewrite <- Hsub, E.
  rewrite Hsub. cbn [length app]. f_equal.
  rewrite scan_no_match; [reflexivity|].
  intros n Hn. rewrite length_app in Hn.
  rewrite drop_app_ge by lia. apply no_at_no_match. exact Hrest.
Qed.

Lemma email_plain_address_accepted_witness :
  validate (EmailValidator None) (PStr "jane99@example.org")
  = Return tt (EmailValidator (Some (PStr "jane99@example.org"))).
Proof.
  apply (email_plain_address_accepted None "jane99@example.org"
           (chars "jane99") (chars "example") (chars "org"));
    first [reflexivity | discriminate | (cbn; lia) | (repeat constructor)].
Defined.

(** ** More on the day count *)

Section DayCount.
Local Open Scope Z_scope.

Lemma strptime_midnight (raw : string) (bd : datetime) :
  strptime_dmY (PStr raw) = inr bd ->
  valid_date (year bd) (month bd) (day bd) = true
  /\ bd = mk_datetime (year bd) (month bd) (day bd) 0 0 0 0.
Proof.
  unfold strptime_dmY.
  destruct (match_dmY (chars raw)) as [[[[d m] y] [|c rest]]|];
    try discriminate.
  destruct (int y) as [ny|], (int m) as [nm|], (int d) as [nd|];
    try discriminate.
  intros H. assert (valid_date ny nm nd = true) as Hv by (apply new_valid; eauto).
  rewrite (new_of_valid _ _ _ Hv) in H. injection H as <-. cbn. auto.
Qed.

Lemma month_cases (m : Z) :
  1 <= m <= 12 ->
  m = 1 \/ m = 2 \/ m = 3 \/ m = 4 \/ m = 5 \/ m = 6 \/ m = 7 \/ m = 8
  \/ m = 9 \/ m = 10 \/ m = 11 \/ m = 12.
Proof. lia. Qed.

Lemma valid_date_inv (y m d : Z) :
  valid_date y m d = true ->
  1 <= y <= 9999 /\ 1 <= m <= 12 /\ 1 <= d <= days_in_month y m.
Proof.
  unfold valid_date, MINYEAR, MAXYEAR. rewrite !andb_true_iff, !Z.leb_le. lia.
Qed.

Lemma valid_date_intro (y m d : Z) :
  1 <= y <= 9999 -> 1 <= m <= 12 -> 1 <= d <= days_in_month y m ->
  valid_date y m d = true.
Proof.
  unfold valid_date, MINYEAR, MAXYEAR. rewrite !andb_true_iff, !Z.leb_le. lia.
Qed.

Ltac eval_months :=
  unfold days_before_month, days_in_month;
  repeat match goal with
         | |- context [Z.to_nat ?k] =>
             let v := eval vm_compute in (Z.to_nat k) in
             change (Z.to_nat k) with v
         end;
  cbn.

Ltac each_month Hm :=
  apply month_cases in Hm;
  repeat (destruct Hm as [->|Hm]); [..|subst].

(** A day other than 29 February exists in every year. *)
Lemma valid_in_every_year (y y' m d : Z) :
  valid_date y m d = true -> ~ (m = 2 /\ d = 29) -> 1 <= y' <= 9999 ->
  valid_date y' m d = true.
Proof.
  intros Hv Hfeb Hy. apply valid_date_inv in Hv as (_ & Hm & Hd).
  apply valid_date_intro; [exact Hy|exact Hm|].
  revert Hd Hfeb. pose proof Hm as Hm'. each_month Hm'; eval_months;
    try lia; destruct (is_leap y), (is_leap y'); lia.
Qed.

(** Within a year the day numbers follow the calendar. *)
Lemma ymd2ord_increasing (y m d m' d' : Z) :
  valid_date y m d = true -> valid_date y m' d' = true ->
  m < m' \/ (m = m' /\ d < d') ->
  ymd2ord y m d < ymd2ord y m' d'.
Proof.
  intros Hv Hv' Hlt.
  apply valid_date_inv in Hv as (_ & Hm & Hd).
  apply valid_date_inv in Hv' as (_ & Hm' & Hd').
  unfold ymd2ord. revert Hd Hd' Hlt.
  pose proof Hm as H1. pose proof Hm' as H2.
  each_month H1; each_month H2; eval_months; destruct (is_leap y); lia.
Qed.

(** The day numbers of a year lie between those of the years around it. *)
Lemma ymd2ord_in_year (y m d : Z) :
  valid_date y m d = true ->
  days_before_year y < ymd2ord y m d <= days_before_year (y + 1).
Proof.
  intros Hv. apply valid_date_inv in Hv as (_ & Hm & Hd).
  pose proof (days_before_year_step y) as Hstep.
  unfold ymd2ord. revert Hd. pose proof Hm as H1.
  each_month H1; eval_months; destruct (is_leap y); lia.
Qed.

(** [today > midnight of (m, d) this year], read off the fields. *)
Lemma gt_midnight_iff (t : datetime) (m d : Z) :
  well_formed t ->
  Datetime.gt t (mk_datetime (year t) m d 0 0 0 0) = true <->
  m < month t
  \/ (m = month t
      /\ (d < day t
          \/ (d = day t
              /\ 0 < hour t + minute t + second t + microsecond t))).
Proof.
  intros (_ & Hh & Hmi & Hs & Hu).
  unfold Datetime.gt, fields.
  cbn [cmp year month day hour minute second microsecond].
  rewrite Z.compare_refl.
  destruct (Z.compare_spec (month t) m); [|split; [discriminate|lia]|split; [lia|reflexivity]].
  destruct (Z.compare_spec (day t) d); [|split; [discriminate|lia]|split; [lia|reflexivity]].
  destruct (Z.compare_spec (hour t) 0); [|lia|split; [lia|reflexivity]].
  destruct (Z.compare_spec (minute t) 0); [|lia|split; [lia|reflexivity]].
  destruct (Z.compare_spec (second t) 0); [|lia|split; [lia|reflexivity]].
  destruct (Z.compare_spec (microsecond t) 0); [|lia|split; [lia|reflexivity]].
  split; [discriminate|lia].
Qed.

(** The whole days from a reading of the clock to a midnight that is not
    before it: the difference of the day numbers, less one when the clock
    is past midnight. *)
Lemma days_until_midnight (t : datetime) (y m d : Z) :
  well_formed t ->
  days (Datetime.sub (mk_datetime y m d 0 0 0 0) t)
  = ymd2ord y m d - toordinal t
    - (if hour t + minute t + second t + microsecond t =? 0 then 0 else 1).
Proof.
  intros (_ & Hh & Hm & Hs & Hu).
  unfold Datetime.sub, new_timedelta, toordinal.
  cbn [days year month day hour minute second microsecond].
  destruct (Z.eqb_spec (hour t + minute t + second t + microsecond t) 0);
    Z.div_mod_to_equations; lia.
Qed.

(** The result of [days_to_birthday] for a stored birthday that parses, on
    a day other than 29 February: no exception, and the day number of the
    chosen occurrence less that of today, less one past midnight. *)
Lemma days_to_birthday_value (today bd : datetime) (raw : string) :
  well_formed today -> year today < 9999 ->
  strptime_dmY (PStr raw) = inr bd ->
  ~ (month bd = 2 /\ day bd = 29) ->
  valid_date (year today) (month bd) (day bd) = true
  /\ valid_date (year today + 1) (month bd) (day bd) = true
  /\ days_to_birthday today (RecordBirthday_init (PStr raw))
     = Return
         (PInt
            (ymd2ord
               (if Datetime.gt today
                     (mk_datetime (year today) (month bd) (day bd) 0 0 0 0)
                then year today + 1 else year today)
               (month bd) (day bd)
             - toordinal today
             - (if hour today + minute today + second today
                   + microsecond today =? 0 then 0 else 1)))
         (RecordBirthday_init (PStr raw)).
Proof.
  intros Hwf Hy Hs Hfeb.
  destruct (strptime_midnight _ _ Hs) as [Hbd _].
  pose proof (valid_date_inv _ _ _ (proj1 Hwf)) as (Hyr & _).
  assert (valid_date (year today) (month bd) (day bd) = true) as Hthis
    by (apply (valid_in_every_year (year bd)); [exact Hbd|exact Hfeb|lia]).
  assert (valid_date (year today + 1) (month bd) (day bd) = true) as Hnext
    by (apply (valid_in_every_year (year bd)); [exact Hbd|exact Hfeb|lia]).
  split; [exact Hthis|]. split; [exact Hnext|].
  unfold days_to_birthday.
  cbn [get_value birthday RecordBirthday_init Field_init value].
  destruct raw as [|c raw]; [vm_compute in Hs; discriminate|].
  cbn [truthy String.eqb negb]. rewrite Hs.
  rewrite (new_of_valid _ _ _ Hthis), (new_of_valid _ _ _ Hnext).
  destruct (Datetime.gt today _);
    rewrite (days_until_midnight _ _ _ _ Hwf); reflexivity.
Qed.

(** X10.  For a stored birthday that parses, on a day other than 29
    February, and a clock before the year 9999, [days_to_birthday] does not
    raise and returns a number of days from 0 to 365. *)
Theorem days_to_birthday_in_range (today bd : datetime) (raw : string) :
  well_formed today -> year today < 9999 ->
  strptime_dmY (PStr raw) = inr bd ->
  ~ (month bd = 2 /\ day bd = 29) ->
  exists n,
    days_to_birthday today (RecordBirthday_init (PStr raw))
    = Return (PInt n) (RecordBirthday_init (PStr raw))
    /\ 0 <= n <= 365.
Proof.
  intros Hwf Hy Hs Hfeb.
  destruct (days_to_birthday_value _ _ _ Hwf Hy Hs Hfeb) as (Hthis & Hnext & ->).
  eexists. split; [reflexivity|].
  pose proof (gt_midnight_iff today (month bd) (day bd) Hwf) as Hgt.
  pose proof (ymd2ord_in_year _ _ _ (proj1 Hwf)) as Htoday.
  pose proof (ymd2ord_in_year _ _ _ Hthis) as Hin.
  pose proof (ymd2ord_in_year _ _ _ Hnext) as Hin'.
  pose proof (days_before_year_step (year today)) as Hstep.
  pose proof (year_step (year today) (month bd) (day bd)) as Hyear.
  unfold toordinal in *.
  destruct (Datetime.gt today _).
  - destruct (proj1 Hgt eq_refl) as [Hm|[Hm [Hd|[Hd Hpos]]]].
    + pose proof (ymd2ord_increasing _ _ _ _ _ Hthis (proj1 Hwf) (or_introl Hm)).
      destruct (_ =? 0); destruct (is_leap (year today)); lia.
    + pose proof (ymd2ord_increasing _ _ _ _ _ Hthis (proj1 Hwf)
                    (or_intror (conj Hm Hd))).
      destruct (_ =? 0); destruct (is_leap (year today)); lia.
    + rewrite <- Hm, <- Hd.
      destruct (Z.eqb_spec (hour today + minute today + second today
                            + microsecond today) 0); lia.
  - assert (~ (month bd < month today
               \/ (month bd = month today
                   /\ (day bd < day today
                       \/ (day bd = day today
                           /\ 0 < hour today + minute today + second today
                                  + microsecond today))))) as Hle
      by (intros H; apply Hgt in H; discriminate).
    destruct (Z.eqb_spec (hour today + minute today + second today
                          + microsecond today) 0) as [Hz|Hz].
    + assert (month today < month bd
              \/ (month today = month bd /\ day today <= day bd)) as [Hm|[Hm Hd]]
        by lia.
      * pose proof (ymd2ord_increasing _ _ _ _ _ (proj1 Hwf) Hthis (or_introl Hm)).
        destruct (is_leap (year today)); lia.
      * destruct (Z.eq_dec (day today) (day bd)) as [Hd'|Hd'].
        -- rewrite <- Hm, <- Hd'. lia.
        -- assert (day today < day bd) as Hlt by lia.
           pose proof (ymd2ord_increasing _ _ _ _ _ (proj1 Hwf) Hthis
                         (or_intror (conj Hm Hlt))).
           destruct (is_leap (year today)); lia.
    + destruct Hwf as (Hv & Hh & Hmi & Hsec & Hus).
      assert (month today < month bd
              \/ (month today = month bd /\ day today < day bd)) as Hlt by lia.
      pose proof (ymd2ord_increasing _ _ _ _ _ Hv Hthis Hlt).
      destruct (is_leap (year today)); lia.
Qed.

Lemma days_to_birthday_in_range_witness :
  exists n,
    days_to_birthday (mk_datetime 2024 12 31 23 59 59 999999)
      (RecordBirthday_init (PStr "1-1-1990"))
    = Return (PInt n) (RecordBirthday_init (PStr "1-1-1990"))
    /\ 0 <= n <= 365.
Proof.
  apply (days_to_birthday_in_range (mk_datetime 2024 12 31 23 59 59 999999)
           (mk_datetime 1990 1 1 0 0 0 0) "1-1-1990");
    first [reflexivity
          | (intros [H _]; discriminate H)
          | (repeat split; (reflexivity || discriminate || lia))].
Defined.

(** X11.  When the clock reads midnight, [days_to_birthday] is the count
    the name promises: the days from today to the next day, today or later,
    with the birthday's month and day; 0 on the birthday itself. *)
Theorem days_to_birthday_at_midnight (today bd : datetime) (raw : string) :
  well_formed today -> year today < 9999 ->
  strptime_dmY (PStr raw) = inr bd ->
  ~ (month bd = 2 /\ day bd = 29) ->
  at_midnight today ->
  exists n next_year,
    days_to_birthday today (RecordBirthday_init (PStr raw))
    = Return (PInt n) (RecordBirthday_init (PStr raw))
    /\ n = ymd2ord next_year (month bd) (day bd) - toordinal today
    /\ 0 <= n
    /\ (next_year = year today
        \/ (next_year = year today + 1
            /\ ymd2ord (year today) (month bd) (day bd) < toordinal today))
    /\ (month bd = month today -> day bd = day today -> n = 0).
Proof.
  intros Hwf Hy Hs Hfeb (Hh & Hmi & Hsec & Hus).
  destruct (days_to_birthday_value _ _ _ Hwf Hy Hs Hfeb) as (Hthis & Hnext & Hv).
  pose proof (gt_midnight_iff today (month bd) (day bd) Hwf) as Hgt.
  rewrite Hh, Hmi, Hsec, Hus in Hv, Hgt. cbn [Z.add Z.eqb] in Hv.
  rewrite Z.sub_0_r in Hv.
  pose proof (ymd2ord_in_year _ _ _ (proj1 Hwf)) as Htoday.
  pose proof (ymd2ord_in_year _ _ _ Hnext) as Hin'.
  unfold toordinal in *.
  destruct (Datetime.gt today _).
  - do 2 eexists. split; [exact Hv|]. split; [reflexivity|].
    split; [lia|]. split.
    + right. split; [reflexivity|].
      apply ymd2ord_increasing; [exact Hthis|exact (proj1 Hwf)|].
      destruct (proj1 Hgt eq_refl) as [Hm|[Hm [Hd|[_ Hpos]]]]; lia.
    + intros Hm Hd. destruct (proj1 Hgt eq_refl) as [?|[? [?|[_ ?]]]]; lia.
  - assert (month today < month bd
            \/ (month today = month bd /\ day today <= day bd)) as Hle.
    { destruct (Z.lt_trichotomy (month bd) (month today)) as [H|[H|H]];
        [exfalso|right; split; [lia|]|left; lia].
      - assert (true = true -> False) by (intros _; cut (false = true);
          [discriminate|apply Hgt; left; exact H]). auto.
      - destruct (Z.le_gt_cases (day today) (day bd)) as [H'|H']; [exact H'|].
        exfalso. cut (false = true); [discriminate|].
        apply Hgt. right. split; [exact H|left; lia]. }
    do 2 eexists. split; [exact Hv|]. split; [reflexivity|]. split.
    + destruct Hle as [Hm|[Hm Hd]].
      * pose proof (ymd2ord_increasing _ _ _ _ _ (proj1 Hwf) Hthis
                      (or_introl Hm)). lia.
      * destruct (Z.eq_dec (day today) (day bd)) as [Hd'|Hd'].
        -- rewrite <- Hm, <- Hd'. lia.
        -- assert (day today < day bd) as Hlt by lia.
           pose proof (ymd2ord_increasing _ _ _ _ _ (proj1 Hwf) Hthis
                         (or_intror (conj Hm Hlt))). lia.
    + split; [left; reflexivity|]. intros Hm Hd. rewrite Hm, Hd. lia.
Qed.

Lemma days_to_birthday_at_midnight_witness :
  exists n next_year,
    days_to_birthday (mk_datetime 2024 5 15 0 0 0 0)
      (RecordBirthday_init (PStr "15-05-1990"))
    = Return (PInt n) (RecordBirthday_init (PStr "15-05-1990"))
    /\ n = ymd2ord next_year 5 15
           - toordinal (mk_datetime 2024 5 15 0 0 0 0)
    /\ 0 <= n
    /\ (next_year = 2024
        \/ (next_year = 2024 + 1
            /\ ymd2ord 2024 5 15 < toordinal (mk_datetime 2024 5 15 0 0 0 0)))
    /\ (5 = 5 -> 15 = 15 -> n = 0).
Proof.
  apply (days_to_birthday_at_midnight (mk_datetime 2024 5 15 0 0 0 0)
           (mk_datetime 1990 5 15 0 0 0 0) "15-05-1990");
    first [reflexivity
          | (intros [H _]; discriminate H)
          | (repeat split; (reflexivity || discriminate || lia))].
Defined.

End DayCount.

(** ** The birthday record *)

(** X13.  [add_birthday] and [edit_birthday] do the same, whether or not a
    birthday is stored: a text that [DateValidator] accepts becomes the
    stored birthday, and any other string raises the bad-format error and
    leaves the stored birthday as it was. *)
Theorem add_birthday_stores (b : pyval) (raw : string) :
  (accepted_date_text (chars raw) ->
     add_birthday (PStr raw) (RecordBirthday_init b)
     = Return tt (RecordBirthday_init (PStr raw))
     /\ edit_birthday (PStr raw) (RecordBirthday_init b)
        = Return tt (RecordBirthday_init (PStr raw)))
  /\ (~ accepted_date_text (chars raw) ->
     add_birthday (PStr raw) (RecordBirthday_init b)
     = Raise bad_format (RecordBirthday_init b)
     /\ edit_birthday (PStr raw) (RecordBirthday_init b)
        = Raise bad_format (RecordBirthday_init b)).
Proof.
  pose proof (date_validator_accepts raw) as Hacc.
  pose proof (date_validator_outcomes raw) as Hout.
  unfold add_birthday, edit_birthday, set_value.
  cbn [birthday RecordBirthday_init Field_init validator value].
  destruct (validate DateValidator (PStr raw)) as [[] vd|e vd] eqn:Hv.
  - apply validate_return_state in Hv as [->|[[a Ha] _]]; [|discriminate Ha].
    split; [intros _; split; reflexivity|].
    intros Hno. exfalso. apply Hno, Hacc. reflexivity.
  - pose proof (validate_raise_state _ _ _ _ Hv) as ->.
    cbn [raised] in *. destruct Hout as [Hout|[= ->]]; [discriminate|].
    split; [|intros _; split; reflexivity].
    intros Hyes. apply Hacc in Hyes. discriminate.
Qed.

(** ** The console display *)

Lemma display_notes_wf (st : list Field) (d : dict) :
  Forall (fun e => (exists lk, fst e = KObj lk /\ lk < length st)
                   /\ snd e < length st) d ->
  display_notes st d
  = (map (fun e =>
            note_line
              (match fst e with
               | KObj l => match st !! l with
                           | Some f => Some (get_value f)
                           | None => None
                           end
               | KVal _ => None
               end,
               match st !! snd e with
               | Some f => Some (get_value f)
               | None => None
               end)) d,
     None).
Proof.
  induction 1 as [|[k lv] d [(lk & Hk & Hlk) Hlv] _ IH]; [reflexivity|].
  cbn [fst snd] in *. subst k. cbn [display_notes map fst snd].
  apply lookup_lt_is_Some in Hlk as [fk Hfk].
  apply lookup_lt_is_Some in Hlv as [fv Hfv].
  unfold loc in *. rewrite Hfk, Hfv, IH. reflexivity.
Qed.

(** X14.  For a record whose notes were made by [add_note], the console
    display raises nothing and prints the six heading lines, one line
    [tag -> note] for each note in insertion order, and a last line that is
    a line break; an absent birthday, address or e-mail is printed as the
    text [None]. *)
Theorem console_display_lines (record : Rec.t) :
  wf_info (Rec.info record) ->
  ConsoleDisplayStrategy record
  = (display_head record
       ++ map note_line (displayed_notes (Rec.info record)) ++ [newline],
     None)
  /\ length (fst (ConsoleDisplayStrategy record))
     = 7 + length (notes (Rec.info record)).
Proof.
  intros Hwf. unfold ConsoleDisplayStrategy.
  rewrite (display_notes_wf _ _ Hwf).
  assert (forall A B C (f : B -> C) (g : A -> B) (l : list A),
             map f (map g l) = map (fun x => f (g x)) l) as Hmm
    by (intros; apply map_map).
  unfold displayed_notes, note_value. rewrite Hmm.
  split; [reflexivity|].
  cbn [fst]. rewrite !length_app, length_map. cbn [length]. lia.
Qed.

Lemma console_display_lines_witness :
  let record :=
    Rec.mk (PStr "John Doe") RecordPhone_init (RecordBirthday_init PNone)
      (RecordAddress_init PNone) (RecordEmail_init PNone)
      (add_note (PStr "Family") (PStr "I have a wife") RecordInfo_init) in
  ConsoleDisplayStrategy record
  = (display_head record
       ++ map note_line (displayed_notes (Rec.info record)) ++ [newline],
     None)
  /\ length (fst (ConsoleDisplayStrategy record))
     = 7 + length (notes (Rec.info record)).
Proof.
  apply console_display_lines.
  unfold wf_info. cbn. constructor; [|constructor].
  cbn. split; [exists 1; split; [reflexivity|lia]|lia].
Defined.

(** What the display of the witness prints. *)
Example console_display_sample :
  fst (ConsoleDisplayStrategy
         (Rec.mk (PStr "John Doe") RecordPhone_init (RecordBirthday_init PNone)
            (RecordAddress_init PNone) (RecordEmail_init PNone)
            (add_note (PStr "Family") (PStr "I have a wife") RecordInfo_init)))
  = ["Name: John Doe"; "Phone: "; "Birthday: None"; "Address: None";
     "Email: None"; "Info:"; "Family -> I have a wife"; newline].
Proof. reflexivity. Qed.

Lemma display_notes_plain_key (st : list Field) (d1 d2 : dict)
    (v : pyval) (l : loc) :
  Forall (fun e => (exists lk, fst e = KObj lk /\ lk < length st)
                   /\ snd e < length st) d1 ->
  exists lines msg,
    display_notes st (d1 ++ (KVal v, l) :: d2)
    = (lines, Some (AttributeError msg))
    /\ length lines = length d1.
Proof.
  induction 1 as [|[k lv] d [(lk & Hk & Hlk) Hlv] _ IH].
  - do 2 eexists. split; reflexivity.
  - cbn [fst snd] in *. subst k. cbn [display_notes app].
    apply lookup_lt_is_Some in Hlk as [fk Hfk].
    apply lookup_lt_is_Some in Hlv as [fv Hfv].
    unfold loc in *. rewrite Hfk, Hfv.
    destruct IH as (lines & msg & -> & Hlen).
    do 2 eexists. split; [reflexivity|]. cbn. lia.
Qed.

(** X15.  A key that is a plain value ends the display with [AttributeError],
    after the lines of the notes before it and without the last line. *)
Lemma console_display_plain_key (record : Rec.t) (d1 d2 : dict)
    (v : pyval) (l : loc) :
  notes (Rec.info record) = d1 ++ (KVal v, l) :: d2 ->
  Forall (fun e => (exists lk, fst e = KObj lk
                               /\ lk < length (store (Rec.info record)))
                   /\ snd e < length (store (Rec.info record))) d1 ->
  exists lines msg,
    ConsoleDisplayStrategy record
    = (display_head record ++ lines, Some (AttributeError msg))
    /\ length lines = length d1.
Proof.
  intros Hn Hd1. unfold ConsoleDisplayStrategy. rewrite Hn.
  destruct (display_notes_plain_key _ d1 d2 v l Hd1)
    as (lines & msg & -> & Hlen).
  exists lines, msg. split; [reflexivity|exact Hlen].
Qed.

Lemma console_display_plain_key_witness :
  let record :=
    Rec.mk (PStr "Jane Smith") RecordPhone_init (RecordBirthday_init PNone)
      (RecordAddress_init PNone) (RecordEmail_init PNone)
      (mk_RecordInfo
         [Field_init (PStr "Two dogs") None; Field_init (PStr "Pets") None;
          Field_init (PStr "I have a wife") None;
          Field_init (PStr "Sport") None; Field_init (PStr "Tennis") None]
         (Field_init PNone None) (Field_init PNone None)
         [(KObj 1, 0); (KVal (PStr "Family"), 2); (KObj 3, 4)]) in
  exists lines msg,
    ConsoleDisplayStrategy record
    = (display_head record ++ lines, Some (AttributeError msg))
    /\ length lines = length [(KObj 1, 0)].
Proof.
  apply (console_display_plain_key _ [(KObj 1, 0)] [(KObj 3, 4)]
           (PStr "Family") 2); [reflexivity|].
  constructor; [|constructor].
  cbn. split; [exists 1; split; [reflexivity|lia]|lia].
Defined.

(** What the display of that record prints before it raises: the note
    before the plain key, and neither the note after it nor the last
    line. *)
Example console_display_plain_key_sample :
  ConsoleDisplayStrategy
    (Rec.mk (PStr "Jane Smith") RecordPhone_init (RecordBirthday_init PNone)
       (RecordAddress_init PNone) (RecordEmail_init PNone)
       (mk_RecordInfo
          [Field_init (PStr "Two dogs") None; Field_init (PStr "Pets") None;
           Field_init (PStr "I have a wife") None;
           Field_init (PStr "Sport") None; Field_init (PStr "Tennis") None]
          (Field_init PNone None) (Field_init PNone None)
          [(KObj 1, 0); (KVal (PStr "Family"), 2); (KObj 3, 4)]))
  = (["Name: Jane Smith"; "Phone: "; "Birthday: None"; "Address: None";
      "Email: None"; "Info:"; "Pets -> Two dogs"],
     Some (AttributeError "object has no attribute 'get_value'")).
Proof. reflexivity. Qed.

(** ** The address book *)

Lemma display_each_app (ds : DisplayStrategy) (l1 l2 : list Rec.t) :
  display_each ds (l1 ++ l2)
  = match display_each ds l1 with
    | (lines, None) =>
        let '(lines', e) := display_each ds l2 in (lines ++ lines', e)
    | (lines, Some e) => (lines, Some e)
    end.
Proof.
  induction l1 as [|r l1 IH]; cbn [display_each app].
  - destruct (display_each ds l2) as [lines e]. reflexivity.
  - unfold display. destruct (ds r) as [lines [e|]]; [reflexivity|].
    rewrite IH. destruct (display_each ds l1) as [lines1 [e1|]]; [reflexivity|].
    destruct (display_each ds l2) as [lines2 e2]. rewrite app_assoc. reflexivity.
Qed.

(** X16.  [display_all] shows the records in the order in which
    [add_record] added them: after [add_record(r)] it prints what it
    printed before and then the display of [r]; an exception raised by the
    display of one record ends it, and the records after that one are not
    shown. *)
Theorem display_all_add_record (ds : DisplayStrategy) (r : Rec.t)
    (self : AddressBook) :
  display_all ds (add_record r self)
  = match display_all ds self with
    | (lines, None) => (lines ++ fst (display r ds), snd (display r ds))
    | (lines, Some e) => (lines, Some e)
    end
  /\ length (records (add_record r self)) = S (length (records self)).
Proof.
  unfold display_all, add_record. cbn [records]. split.
  - rewrite display_each_app. cbn [display_each].
    destruct (display_each ds (records self)) as [lines [e|]]; [reflexivity|].
    destruct (display r ds) as [lines' [e'|]]; cbn [fst snd];
      rewrite ?app_nil_r; reflexivity.
  - rewrite length_app. cbn. lia.
Qed.
